(** * media_hub: the HTTP transfer service and its owning process

    A shallow embedding of [src/daemon/services/http.js] (class
    [HTTPService]) and of the server life cycle of [src/app/main.js]
    ([createServer], the [will-quit] handler), with the properties the
    specification states about them.

    Layout:
    - [Js]: JavaScript values, strings, property lists, [JSON.stringify],
      errors;
    - [Path]: Node's POSIX [path.join];
    - [Meta]: the metadata store the service reads (its class is not part
      of the sources at hand);
    - [Http]: [HTTPService]: constructor, [start], [stop], [rootHandler],
      [validateRequest] and the two request handlers;
    - [Main]: promises in logical time, [createServer] and [will-quit]. *)

From stdpp Require Import gmap strings list fin_maps pretty.
From Stdlib Require Import ZArith Ascii String.

Local Open Scope Z_scope.
Local Open Scope string_scope.
Local Open Scope list_scope.

(* ===================================================================== *)
(** * JavaScript values                                                   *)
(* ===================================================================== *)

Module Js.

(** The values the service handles: JSON data plus [undefined]. Numbers
    are the integers the code counts with. An object is its list of own
    enumerable properties in insertion order, which is the order
    [JSON.stringify] prints them in. *)
#[warnings="-register-all"]
Inductive jsval : Type :=
  | VUndef
  | VNull
  | VBool (b : bool)
  | VNum (n : Z)
  | VStr (s : string)
  | VArr (items : list jsval)
  | VObj (props : list (string * jsval)).

Abbreviation obj := (list (string * jsval)).

(** [!v] is [negb (truthy v)]. *)
Definition truthy (v : jsval) : bool :=
  match v with
  | VUndef | VNull => false
  | VBool b => b
  | VNum n => negb (n =? 0)%Z
  | VStr s => negb (String.eqb s "")
  | VArr _ | VObj _ => true
  end.

(** ** Strings *)

(** [s.slice(1)] *)
Definition slice1 (s : string) : string :=
  match s with
  | EmptyString => EmptyString
  | String _ r => r
  end.

(** [s.endsWith(String c)] *)
Fixpoint endsWith (s : string) (c : ascii) : bool :=
  match s with
  | EmptyString => false
  | String a EmptyString => Ascii.eqb a c
  | String _ r => endsWith r c
  end.

(** [s.slice(0, s.length - 1)] *)
Fixpoint dropLast (s : string) : string :=
  match s with
  | EmptyString => EmptyString
  | String _ EmptyString => EmptyString
  | String a r => String a (dropLast r)
  end.

(** [s.split(String sep)]: never empty, [n] separators give [n + 1]
    pieces, empty pieces are kept. *)
Fixpoint split (sep : ascii) (s : string) : list string :=
  match s with
  | EmptyString => [EmptyString]
  | String a r =>
      if Ascii.eqb a sep then EmptyString :: split sep r
      else match split sep r with
           | h :: t => String a h :: t
           | [] => [String a EmptyString]
           end
  end.

(** [pieces.join(String sep)] *)
Fixpoint join (sep : string) (pieces : list string) : string :=
  match pieces with
  | [] => EmptyString
  | [p] => p
  | p :: rest => p +:+ sep +:+ join sep rest
  end.

(** ** Property lists *)

(** [o.k]: [undefined] when [o] has no such property. *)
Fixpoint getProp (o : obj) (k : string) : jsval :=
  match o with
  | [] => VUndef
  | (k', v) :: rest => if String.eqb k' k then v else getProp rest k
  end.

(** [delete o.k] *)
Definition deleteProp (o : obj) (k : string) : obj :=
  List.filter (fun kv => negb (String.eqb (fst kv) k)) o.

Definition hasProp (o : obj) (k : string) : bool :=
  existsb (fun kv => String.eqb (fst kv) k) o.

(** ** JSON.stringify(v, null, 0) *)

Definition dquote : ascii := "034"%char.
Definition backslash : ascii := "092"%char.

Definition hexDigit (n : N) : ascii :=
  ascii_of_N (if (n <? 10)%N then 48 + n else 87 + n)%N.

(** The escape of one character inside a JSON string. *)
Definition escapeChar (c : ascii) : string :=
  let n := N_of_ascii c in
  if (n =? 34)%N then String backslash (String dquote EmptyString)
  else if (n =? 92)%N then String backslash (String backslash EmptyString)
  else if (n =? 8)%N then String backslash "b"
  else if (n =? 12)%N then String backslash "f"
  else if (n =? 10)%N then String backslash "n"
  else if (n =? 13)%N then String backslash "r"
  else if (n =? 9)%N then String backslash "t"
  else if (n <? 32)%N then
    String backslash
      ("u00" +:+ String (hexDigit (n / 16)) (String (hexDigit (n mod 16)) EmptyString))
  else String c EmptyString.

Fixpoint escape (s : string) : string :=
  match s with
  | EmptyString => EmptyString
  | String c r => escapeChar c +:+ escape r
  end.

Definition quote (s : string) : string :=
  String dquote (escape s) +:+ String dquote EmptyString.

(** [undefined] prints as [null] inside an array and drops its property
    inside an object. *)
Fixpoint stringify (v : jsval) : string :=
  match v with
  | VUndef | VNull => "null"
  | VBool true => "true"
  | VBool false => "false"
  | VNum n => pretty n
  | VStr s => quote s
  | VArr items => "[" +:+ join "," (List.map stringify items) +:+ "]"
  | VObj props =>
      "{" +:+
      join ","
        ((fix members (ps : obj) : list string :=
            match ps with
            | [] => []
            | (_, VUndef) :: rest => members rest
            | (k, x) :: rest => (quote k +:+ ":" +:+ stringify x) :: members rest
            end) props)
      +:+ "}"
  end.

(** ** Errors *)

(** An [Error] object: [code] is the property [validateRequest] sets. *)
Record error : Type := Error {
  ename : string;
  message : string;
  code : option Z;
  stack : string
}.

(** [err.toString()], also what a template literal prints. *)
Definition toString (e : error) : string := ename e +:+ ": " +:+ message e.

(** [Error(msg)] / [new Error(msg)]; the stack is the header line and the
    frames of the place that built it. *)
Definition newError (msg : string) (frames : string) : error :=
  {| ename := "Error"; message := msg; code := None;
     stack := "Error: " +:+ msg +:+ frames |}.

Definition typeError (msg : string) (frames : string) : error :=
  {| ename := "TypeError"; message := msg; code := None;
     stack := "TypeError: " +:+ msg +:+ frames |}.

Definition withCode (e : error) (c : Z) : error :=
  {| ename := ename e; message := message e; code := Some c; stack := stack e |}.

End Js.

(* ===================================================================== *)
(** * Node's path.join on POSIX                                           *)
(* ===================================================================== *)

Module Path.

(** One segment of [normalizeString]: the stack holds the segments kept so
    far, the last one first. *)
Definition normalizeStep (allowAboveRoot : bool) (acc : list string) (seg : string)
  : list string :=
  if String.eqb seg "" || String.eqb seg "." then acc
  else if String.eqb seg ".." then
    match acc with
    | top :: rest =>
        if String.eqb top ".." then (if allowAboveRoot then seg :: acc else acc)
        else rest
    | [] => if allowAboveRoot then [seg] else []
    end
  else seg :: acc.

Definition normalizeString (p : string) (allowAboveRoot : bool) : string :=
  Js.join "/" (rev (fold_left (normalizeStep allowAboveRoot) (Js.split "/" p) [])).

Definition isAbsolute (p : string) : bool :=
  match p with
  | String a _ => Ascii.eqb a "/"
  | EmptyString => false
  end.

Definition normalize (p : string) : string :=
  if String.eqb p "" then "."
  else
    let abs := isAbsolute p in
    let trailing := Js.endsWith p "/" in
    let q := normalizeString p (negb abs) in
    let q := if String.eqb q "" && negb abs then "." else q in
    let q := if negb (String.eqb q "") && trailing then q +:+ "/" else q in
    if abs then "/" +:+ q else q.

(** [Path.join(a, b)] *)
Definition join (a b : string) : string :=
  match List.filter (fun x => negb (String.eqb x "")) [a; b] with
  | [] => "."
  | parts => normalize (Js.join "/" parts)
  end.

End Path.

(* ===================================================================== *)
(** * The metadata store                                                  *)
(* ===================================================================== *)

Module Meta.
Import Js.

(** Objects live in a heap; a variable holds a reference. *)
Abbreviation loc := nat.
Abbreviation heap := (gmap loc obj).

Inductive kind : Type := KFile | KDir.

(** Modelled from the spec: the class behind [this.metaData] is missing
    from the sources. A file entry has the fields of the spec's FileEntry;
    [id], [path], [name] and [type] are the names [HTTPService] reads, and
    ["dir"] is the [type] it tests for. *)
Record FileEntry : Type := {
  id : string;
  path : string;
  name : string;
  type : kind;
  parentId : option string;
  downloadCount : Z
}.

(** Modelled from the spec: the object the store holds for an entry. *)
Definition entryObj (e : FileEntry) : obj :=
  [ ("id", VStr (id e));
    ("path", VStr (path e));
    ("name", VStr (name e));
    ("type", VStr (match type e with KDir => "dir" | KFile => "file" end));
    ("parentId", match parentId e with Some p => VStr p | None => VNull end);
    ("downloadCount", VNum (downloadCount e)) ].

(** Modelled from the spec: the store is two indexes, identifier to path
    and path to the entry's object; the objects themselves are in the
    heap, so what [getData] hands out is the store's own object. *)
Record MetaData : Type := {
  ids : gmap string string;
  files : gmap string loc
}.

(** Modelled from the spec: [pathForId(id) -> path | none]. *)
Definition getPathFromId (md : MetaData) (i : string) : option string :=
  ids md !! i.

(** Modelled from the spec: [dataFor] keyed by path as the service calls
    it; [None] is [undefined]. *)
Definition getData (md : MetaData) (p : string) : option loc :=
  files md !! p.

(** Modelled from the spec: [hasShared(path) -> bool]. *)
Definition hasFile (md : MetaData) (p : string) : bool :=
  bool_decide (is_Some (files md !! p)).

Definition bumpProp (kv : string * jsval) : string * jsval :=
  match kv with
  | (k, VNum n) => if String.eqb k "downloadCount" then (k, VNum (n + 1)) else kv
  | _ => kv
  end.

(** The entry's object with its counter one higher. *)
Definition bump (o : obj) : obj := List.map bumpProp o.

(** Modelled from the spec: [incrementDownload] adds one to the counter of
    the entry at [p], in place. *)
Definition incrementDownload (md : MetaData) (p : string) (h : heap) : heap :=
  match files md !! p with
  | Some l => alter bump l h
  | None => h
  end.

(** Every indexed path has a fully populated entry object under its own
    path. *)
Definition wf (md : MetaData) (h : heap) : Prop :=
  forall p l, files md !! p = Some l ->
    exists e, h !! l = Some (entryObj e) /\ path e = p.

End Meta.

(* ===================================================================== *)
(** * HTTPService                                                         *)
(* ===================================================================== *)

Module Http.
Import Js Meta.

(** ** What a request handler acts on *)

Inductive level : Type := LError | LInfo | LDebug.

Abbreviation logbook := (list (level * string)).

(** The calls a handler makes on the store and on the file system, in the
    order it makes them. *)
Inductive call : Type :=
  | CGetPathFromId (i : string)
  | CGetData (p : option string)
  | CHasFile (p : string)
  | CIncrementDownload (p : string)
  | CReaddir (p : string)
  | CCreateReadStream (p : string).

(** Node's [ServerResponse]. [head] is the status line and headers once
    [writeHead] has fixed them; [piped] is the file whose stream was piped
    into the response. *)
Record response : Type := {
  statusCode : Z;
  statusMessage : string;
  head : option (Z * list (string * string));
  body : list string;
  piped : option string;
  ended : bool
}.

Definition freshResponse : response :=
  {| statusCode := 200; statusMessage := ""; head := None; body := [];
     piped := None; ended := false |}.

(** What goes on the wire: the head [writeHead] fixed, or else the one
    built from [statusCode] when the response is written or ended. *)
Definition sentStatus (r : response) : Z :=
  match head r with
  | Some (c, _) => c
  | None => statusCode r
  end.

Definition sentHeaders (r : response) : list (string * string) :=
  match head r with
  | Some (_, hs) => hs
  | None => []
  end.

(** The file system as the handlers see it. [readdir] rejects with an
    error or resolves with the names in the directory. [canOpen] tells
    whether the file behind a read stream can be opened: Node opens it
    after [createReadStream] has returned, so no handler ever sees it;
    what comes of it is in [onWire] and [streamFails]. *)
Record FS : Type := {
  readdir : string -> error + list string;
  canOpen : string -> bool
}.

Record request : Type := {
  url : string;
  remoteAddress : string;
  remotePort : Z
}.

Record world : Type := {
  heap : Meta.heap;
  log : logbook;
  calls : list call;
  res : response
}.

Definition setHeap (h : Meta.heap) (w : world) : world :=
  {| heap := h; log := log w; calls := calls w; res := res w |}.
Definition logAt (l : level) (msg : string) (w : world) : world :=
  {| heap := heap w; log := log w ++ [(l, msg)]; calls := calls w; res := res w |}.
Definition record (c : call) (w : world) : world :=
  {| heap := heap w; log := log w; calls := calls w ++ [c]; res := res w |}.
Definition setRes (r : response) (w : world) : world :=
  {| heap := heap w; log := log w; calls := calls w; res := r |}.

(** ** Computations that may throw *)

Definition M (A : Type) : Type := world -> (error + A) * world.

Definition ret {A} (a : A) : M A := fun w => (inr a, w).
Definition throw {A} (e : error) : M A := fun w => (inl e, w).
Definition bind {A B} (m : M A) (k : A -> M B) : M B :=
  fun w =>
    match m w with
    | (inr a, w') => k a w'
    | (inl e, w') => (inl e, w')
    end.
Definition effect (f : world -> world) : M unit := fun w => (inr tt, f w).

Declare Scope js_scope.
Delimit Scope js_scope with js.
Notation "'let*' x := m 'in' k" := (bind m (fun x => k))
  (at level 10, x name, m at level 100, k at level 200) : js_scope.
Notation "m ;; k" := (bind m (fun _ => k))
  (at level 100, k at level 200, right associativity) : js_scope.
Local Open Scope js_scope.

(** ** The response *)

Definition withHead (c : Z) (hs : list (string * string)) (w : world) : world :=
  let r := res w in
  setRes {| statusCode := c; statusMessage := statusMessage r; head := Some (c, hs);
            body := body r; piped := piped r; ended := ended r |} w.

Definition withChunk (s : string) (w : world) : world :=
  let r := res w in
  setRes {| statusCode := statusCode r; statusMessage := statusMessage r; head := head r;
            body := body r ++ [s]; piped := piped r; ended := ended r |} w.

Definition withPipe (p : string) (w : world) : world :=
  let r := res w in
  setRes {| statusCode := statusCode r; statusMessage := statusMessage r; head := head r;
            body := body r; piped := Some p; ended := ended r |} w.

(** [res.end()] *)
Definition endRes (w : world) : world :=
  let r := res w in
  setRes {| statusCode := statusCode r; statusMessage := statusMessage r; head := head r;
            body := body r; piped := piped r; ended := true |} w.

(** [res.statusCode = c] *)
Definition setStatusCode (c : Z) (w : world) : world :=
  let r := res w in
  setRes {| statusCode := c; statusMessage := statusMessage r; head := head r;
            body := body r; piped := piped r; ended := ended r |} w.

(** [res.statusMessage = s] *)
Definition setStatusMessage (s : string) (w : world) : world :=
  let r := res w in
  setRes {| statusCode := statusCode r; statusMessage := s; head := head r;
            body := body r; piped := piped r; ended := ended r |} w.

(** [res.writeHead(c, hs)] *)
Definition writeHead (c : Z) (hs : list (string * string)) : M unit :=
  effect (withHead c hs).

(** [res.write(s)] *)
Definition write (s : string) : M unit := effect (withChunk s).

(** [fileStream.pipe(res)] *)
Definition pipe (p : string) : M unit := effect (withPipe p).

(** ** The store and the file system, as calls *)

Definition mGetPathFromId (md : MetaData) (i : string) : M (option string) :=
  fun w => (inr (getPathFromId md i), record (CGetPathFromId i) w).

(** The argument is what [getPathFromId] returned, [undefined] included. *)
Definition mGetData (md : MetaData) (p : option string) : M (option loc) :=
  fun w => (inr (p ≫= getData md), record (CGetData p) w).

Definition mHasFile (md : MetaData) (p : string) : M bool :=
  fun w => (inr (hasFile md p), record (CHasFile p) w).

Definition mIncrementDownload (md : MetaData) (p : string) : M unit :=
  fun w => (inr tt, setHeap (incrementDownload md p (heap w)) (record (CIncrementDownload p) w)).

Definition undefinedProp (k : string) : error :=
  typeError ("Cannot read property '" +:+ k +:+ "' of undefined")
            " at HTTPService.fileRequestHandler".

(** [data.k]: a [TypeError] on [undefined]. *)
Definition prop (data : option loc) (k : string) : M jsval :=
  fun w =>
    match data with
    | Some l => (inr (getProp (default [] (heap w !! l)) k), w)
    | None => (inl (undefinedProp k), w)
    end.

Definition badPath (who : string) : error :=
  typeError "The path argument must be of type string" who.

(** A path argument of [fs]: anything but a string is refused. *)
Definition pathArg (v : jsval) (who : string) : M string :=
  match v with
  | VStr p => ret p
  | _ => throw (badPath who)
  end.

(** [readdir(path)], awaited. *)
Definition mReaddir (fs : FS) (path : jsval) : M (list string) :=
  let* p := pathArg path " at readdir" in
  fun w =>
    match readdir fs p with
    | inr names => (inr names, record (CReaddir p) w)
    | inl e => (inl e, record (CReaddir p) w)
    end.

(** [Fs.createReadStream(path)]: returns the stream without opening the
    file; whether it opens is settled after the handler has returned, see
    [onWire] and [streamFails]. *)
Definition mCreateReadStream (path : jsval) : M string :=
  let* p := pathArg path " at createReadStream" in
  fun w => (inr p, record (CCreateReadStream p) w).

(** [{ ...data }]: a new object with the properties of [data], none for
    [undefined]. *)
Definition spread (data : option loc) : M loc :=
  fun w =>
    let o := default [] (data ≫= (fun l => heap w !! l)) in
    let l' := fresh (dom (heap w)) in
    (inr l', setHeap (<[l' := o]> (heap w)) w).

(** [delete data.k] *)
Definition deleteAt (l : loc) (k : string) : M unit :=
  effect (fun w => setHeap (alter (fun o => deleteProp o k) l (heap w)) w).

(** [JSON.stringify(data, null, 0)] *)
Definition stringifyAt (l : loc) : M string :=
  fun w => (inr (stringify (VObj (default [] (heap w !! l)))), w).

(** ** Request handling *)

Definition jsonType : list (string * string) := [("Content-Type", "application/json")].
Definition octetType : list (string * string) := [("Content-Type", "application/octet-stream")].

(** [req.path[0]]; [split] never returns an empty array. *)
Definition first (segs : list string) : string := hd EmptyString segs.

Definition isStr (v : jsval) (s : string) : bool :=
  match v with
  | VStr t => String.eqb t s
  | _ => false
  end.

(** JavaScript's [!p] on what [getPathFromId] returns. *)
Definition falsyPath (p : option string) : bool :=
  match p with
  | Some s => String.eqb s ""
  | None => true
  end.

(** [req.path] as [validateRequest] computes it from [req.url]. *)
Definition segments (u : string) : list string :=
  let path := slice1 u in
  let path := if endsWith path "/" then dropLast path else path in
  split "/" path.

(** [validateRequest(req)]; returns the [req.path] it assigns. *)
Definition validateRequest (md : MetaData) (req : request) : M (list string) :=
  let path := segments (url req) in
  if (2 <? List.length path)%nat
     || ((List.length path =? 2)%nat && negb (String.eqb (nth 1 path "") "meta"))
  then throw (withCode (newError "Invalid URL" " at HTTPService.validateRequest") 404)
  else
    let* p := mGetPathFromId md (first path) in
    if falsyPath p
    then throw (withCode (newError "Resource not found" " at HTTPService.validateRequest") 404)
    else ret path.

(** [metaDataRequestHandler(req, res)] *)
Definition metaDataRequestHandler (md : MetaData) (path : list string) : M unit :=
  let* p := mGetPathFromId md (first path) in
  let* data := mGetData md p in
  let* data := spread data in
  deleteAt data "path" ;;
  let* data := stringifyAt data in
  writeHead 200 jsonType ;;
  write data ;;
  effect endRes.

(** The body of [children.forEach]: the listing in the order of
    [children]. *)
Fixpoint listing (md : MetaData) (children : list string) : M (list jsval) :=
  match children with
  | [] => ret []
  | child :: rest =>
      let* shared := mHasFile md child in
      if shared then
        let* chdata := mGetData md (Some child) in
        let* nm := prop chdata "name" in
        let* i := prop chdata "id" in
        let* tl := listing md rest in
        ret (VObj [("name", nm); ("id", i)] :: tl)
      else listing md rest
  end.

(** [fileRequestHandler(req, res)] *)
Definition fileRequestHandler (md : MetaData) (fs : FS) (path : list string) : M unit :=
  let* p := mGetPathFromId md (first path) in
  let* data := mGetData md p in
  let* dpath := prop data "path" in
  let* ty := prop data "type" in
  if isStr ty "dir" then
    let* children := mReaddir fs dpath in
    let children :=
      List.map (fun child => Path.join (match dpath with VStr s => s | _ => "" end) child)
               children in
    let* items := listing md children in
    let response := stringify (VObj [("id", VStr (first path)); ("children", VArr items)]) in
    writeHead 200 jsonType ;;
    write response ;;
    effect endRes
  else
    writeHead 200 octetType ;;
    let* fileStream := mCreateReadStream dpath in
    pipe fileStream ;;
    mIncrementDownload md fileStream.

(** What [rootHandler] logs first. *)
Definition requestLine (req : request) : string :=
  "HTTPService: Request at " +:+ url req +:+ " from "
  +:+ remoteAddress req +:+ ":" +:+ pretty (remotePort req).

(** The [try] block of [rootHandler]. *)
Definition handle (md : MetaData) (fs : FS) (req : request) : M unit :=
  effect (logAt LInfo (requestLine req)) ;;
  let* path := validateRequest md req in
  if (List.length path =? 2)%nat then metaDataRequestHandler md path
  else fileRequestHandler md fs path.

(** The [catch] block of [rootHandler]. *)
Definition recover (err : error) (w : world) : world :=
  if bool_decide (code err = Some 404) then
    endRes (setStatusMessage (toString err) (setStatusCode 404 w))
  else
    endRes (setStatusCode 500
      (logAt LDebug ("HTTPService: " +:+ stack err)
        (logAt LError ("HTTPService: " +:+ toString err) w))).

(** [rootHandler(req, res)] *)
Definition rootHandler (md : MetaData) (fs : FS) (req : request) (w : world) : world :=
  match handle md fs req w with
  | (inr _, w') => w'
  | (inl err, w') => recover err w'
  end.

(** A handler starts on a fresh response, with nothing logged or called
    yet. *)
Definition arrive (h : Meta.heap) : world :=
  {| heap := h; log := []; calls := []; res := freshResponse |}.

(** ** After the handler has returned *)

(** What reaches the client. A response that was ended goes out whole,
    with the head [writeHead] stored or the one built from [statusCode].
    A stream piped into a response that was not ended opens its file now:
    if it opens, the stored head goes out with the content and the
    response is ended when the stream ends; if it does not, nothing is
    ever written to the response and nothing ends it, so the stored head
    is never sent. *)
Inductive reply : Type :=
  | Whole (status : Z) (headers : list (string * string)) (chunks : list string)
  | File (status : Z) (headers : list (string * string)) (p : string)
  | Silence.

Definition onWire (fs : FS) (r : response) : reply :=
  if ended r then Whole (sentStatus r) (sentHeaders r) (body r)
  else
    match piped r with
    | Some p => if canOpen fs p then File (sentStatus r) (sentHeaders r) p else Silence
    | None => Silence
    end.

(** Whether the stream piped into the response fails to open its file. It
    then emits [error]; the handler registered no listener on the stream
    and has returned from its [try] long before, so the error is caught
    by nothing of the service: it is neither logged nor answered. *)
Definition streamFails (fs : FS) (r : response) : bool :=
  match piped r with
  | Some p => negb (canOpen fs p)
  | None => false
  end.

Close Scope js_scope.

(** ** The service and its listener *)

(** An argument of the constructor: an object of the expected class, or
    any other value. *)
Inductive arg (T : Type) : Type :=
  | Given (x : T)
  | Prim (v : jsval).
Arguments Given {T} x.
Arguments Prim {T} v.

(** JavaScript's truthiness: an object is always truthy. *)
Definition argTruthy {T} (a : arg T) : bool :=
  match a with
  | Given _ => true
  | Prim v => truthy v
  end.

(** Node's [http.Server], as far as [listen] and [close] show it:
    [conns] counts the connections still open. A closing server emits
    [close] once the last one has ended. *)
Inductive listener : Type :=
  | Idle
  | Listening (conns : nat)
  | Closing (conns : nat)
  | Closed.

Record HTTPService : Type := {
  metaData : arg MetaData;
  port : jsval;
  server : listener
}.

Definition setServer (s : listener) (this : HTTPService) : HTTPService :=
  {| metaData := metaData this; port := port this; server := s |}.

(** How a call ends. *)
Inductive completion : Type :=
  | Returned (v : jsval)
  | Threw (e : error).

(** [new HTTPService(metaData, port)] *)
Definition constructor (metaData : arg MetaData) (port : jsval) (lg : logbook)
  : (error + HTTPService) * logbook :=
  if negb (argTruthy metaData) then
    (inl (newError "MetaData object not passed to HTTPService." " at new HTTPService"),
     lg ++ [(LError, "MetaData object not passed to HTTPService.")])
  else if negb (truthy port) then
    (inl (newError "Port not passed to HTTPService." " at new HTTPService"),
     lg ++ [(LError, "Port not passed to HTTPService.")])
  else
    (inr {| metaData := metaData; port := port; server := Idle |}, lg).

(** The events of the server the constructor listens to. *)
Inductive event : Type :=
  | EClientError (err : error)
  | EListening (address : string) (boundPort : Z)
  | EError (err : error)
  | EClose.

(** Carriage return and line feed, the [\r\n] of the source. *)
Definition crlf : string := String "013"%char (String "010"%char EmptyString).

(** The four listeners the constructor registers: what each logs, and
    what the [clientError] one writes to the socket it ends. *)
Definition onEvent (ev : event) (lg : logbook) : logbook * option string :=
  match ev with
  | EClientError err =>
      (lg ++ [(LError, "HTTPService: clientError");
              (LDebug, "HTTPService: " +:+ stack err);
              (LInfo, "HTTPService: Closing socket")],
       Some ("HTTP/1.1 400 Bad Request" +:+ crlf +:+ crlf))
  | EListening a p =>
      (lg ++ [(LInfo, "HTTPService: listening on " +:+ a +:+ ":" +:+ pretty p)], None)
  | EError err =>
      (lg ++ [(LError, "UDPService: " +:+ toString err);
              (LDebug, "UDPService: " +:+ stack err)], None)
  | EClose =>
      (lg ++ [(LInfo, "HTTPService: Service stopped")], None)
  end.

(** The network: binding a port gives the bound address or fails, and
    the failure comes as the [error] event of the server. [refuses] is the
    error [listen] throws on the spot for a string or an object it cannot
    listen on (a string is a port in digits or the name of a pipe, an
    object holds the options of [listen]). *)
Record Net : Type := {
  bindPort : jsval -> error + (string * Z);
  refuses : jsval -> option error
}.

Definition alreadyListen : error :=
  newError "Listen method has been called more than once without closing." " at Server.listen".

(** The errors [listen] throws for a number that is no port and for a
    boolean; the wording is that of Node 10. *)
Definition badPort (n : Z) : error :=
  {| ename := "RangeError [ERR_SOCKET_BAD_PORT]";
     message := "Port should be > 0 and < 65536. Received " +:+ pretty n +:+ ".";
     code := None;
     stack := "RangeError [ERR_SOCKET_BAD_PORT]: Port should be > 0 and < 65536. Received "
              +:+ pretty n +:+ "." +:+ " at Server.listen" |}.

Definition badListenArg (b : bool) : error :=
  let shown := String dquote ("{ port: " +:+ (if b then "true" else "false") +:+ " }")
               +:+ String dquote EmptyString in
  let opt := String dquote "options" +:+ String dquote EmptyString in
  {| ename := "TypeError [ERR_INVALID_OPT_VALUE]";
     message := "The value " +:+ shown +:+ " is invalid for option " +:+ opt;
     code := None;
     stack := "TypeError [ERR_INVALID_OPT_VALUE]: The value " +:+ shown
              +:+ " is invalid for option " +:+ opt +:+ " at Server.listen" |}.

(** What [listen(port)] makes of its argument before anything is bound:
    the error it throws, if it throws. A number must be a port number, 0
    to 65535; a boolean is no port; [undefined] and [null] stand for any
    free port. *)
Definition listenArg (net : Net) (port : jsval) : option error :=
  match port with
  | VNum n => if (0 <=? n)%Z && (n <? 65536)%Z then None else Some (badPort n)
  | VBool b => Some (badListenArg b)
  | VUndef | VNull => None
  | VStr _ | VArr _ | VObj _ => refuses net port
  end.

(** [start()]: the call itself, and the event [listen] causes, which the
    server emits after the call has returned. [listen] throws on a server
    that listens already and on a port it does not take; the error goes
    through [start()] to its caller. *)
Definition start (net : Net) (this : HTTPService) (lg : logbook)
  : completion * HTTPService * logbook * option event :=
  let lg := lg ++ [(LDebug, "HTTPService: Start function called")] in
  match server this with
  | Listening _ => (Threw alreadyListen, this, lg, None)
  | Idle | Closed | Closing _ =>
      match listenArg net (port this) with
      | Some e => (Threw e, this, lg, None)
      | None =>
          match bindPort net (port this) with
          | inr (a, p) =>
              (Returned VUndef,
               setServer (Listening (match server this with Closing c => c | _ => 0%nat end))
                         this,
               lg, Some (EListening a p))
          | inl err => (Returned VUndef, this, lg, Some (EError err))
          end
      end
  end.

(** [server.close()]: stop accepting, keep the open connections. *)
Definition close (s : listener) : listener :=
  match s with
  | Listening c | Closing c => Closing c
  | Idle | Closed => Closing 0
  end.

(** [stop()] *)
Definition stop (this : HTTPService) (lg : logbook) : completion * HTTPService * logbook :=
  let lg := lg ++ [(LDebug, "HTTPService: Stop function called")] in
  (Returned VUndef, setServer (close (server this)) this, lg).

(** What happens next to a closing server: an open connection ends, or,
    with none left, [close] is emitted. *)
Definition drain (s : listener) : listener * option event :=
  match s with
  | Closing 0 => (Closed, Some EClose)
  | Closing (S c) => (Closing c, None)
  | _ => (s, None)
  end.

End Http.

(* ===================================================================== *)
(** * The owning process: main.js                                         *)
(* ===================================================================== *)

Module Main.
Import Js.

(** ** Promises in logical time *)

Inductive settled : Type :=
  | Fulfilled (v : jsval)
  | Rejected (e : error).

(** A promise is known by when it settles and how. *)
Record promise : Type := {
  settlesAt : nat;
  outcome : settled
}.

(** What [Promise.all] is given: a promise, or any other value, which
    counts as fulfilled already. *)
Inductive awaitable : Type :=
  | Plain (v : jsval)
  | Prom (p : promise).

(** When an item given at [now] is settled for whoever waits on it. *)
Definition settleTime (now : nat) (a : awaitable) : nat :=
  match a with
  | Plain _ => now
  | Prom p => Nat.max now (settlesAt p)
  end.

Definition rejection (a : awaitable) : option error :=
  match a with
  | Prom {| outcome := Rejected e |} => Some e
  | _ => None
  end.

Definition valueOf (a : awaitable) : jsval :=
  match a with
  | Plain v => v
  | Prom {| outcome := Fulfilled v |} => v
  | Prom _ => VUndef
  end.

(** The earliest rejection among the items; of two at the same time, the
    one that comes first. *)
Fixpoint firstRejection (now : nat) (items : list awaitable) : option (nat * error) :=
  match items with
  | [] => None
  | a :: rest =>
      let r := firstRejection now rest in
      match rejection a, r with
      | Some e, Some (t', _) =>
          if (settleTime now a <=? t')%nat then Some (settleTime now a, e) else r
      | Some e, None => Some (settleTime now a, e)
      | None, _ => r
      end
  end.

(** [Promise.all(items)] called at [now]: rejected as soon as one item
    rejects, else fulfilled once every item is. *)
Definition PromiseAll (now : nat) (items : list awaitable) : promise :=
  match firstRejection now items with
  | Some (t, e) => {| settlesAt := t; outcome := Rejected e |}
  | None =>
      {| settlesAt := fold_right Nat.max now (List.map (settleTime now) items);
         outcome := Fulfilled (VArr (List.map valueOf items)) |}
  end.

(** ** The process *)

(** The class [Server] is missing from the sources: an instance is what
    main.js can observe of it. [stopAt now] is the array [stop()] returns
    when called at [now]; [startThrows] is the error [start()] throws, if
    it does. *)
Record ServerInst : Type := {
  sid : nat;
  stopAt : nat -> list awaitable;
  startThrows : option error
}.

(** What the process depends on: [new Server(db, config._)], which may
    throw, [db.close()], whose promise settles later, and whether
    [mainWindow] holds a window at a given time: [createWindow] sets it
    and the [closed] event of the window makes it [null]. *)
Record Env : Type := {
  construct : jsval -> error + ServerInst;
  closeDb : nat -> promise;
  windowAt : nat -> bool
}.

Inductive action : Type :=
  | AStop (s : nat)
  | ANew (s : nat)
  | AStart (s : nat)
  | ALog (l : Http.level) (msg : string)
  | ASendServerError (e : error)
  | ACloseDb
  | AExit.

(** The module-level variables [server] and [config], and what the
    process has done, each action with the time it was done at. *)
Record app : Type := {
  server : option ServerInst;
  config : jsval;
  trace : list (nat * action)
}.

(** [mainWindow.webContents.send(Rch.SERVER_ERROR, err)] at [t]. With no
    window, reading [webContents] of [null] throws inside the last
    [catch] of the chain: nothing is sent and nothing catches that
    error. *)
Definition sendServerError (env : Env) (t : nat) (e : error) : list (nat * action) :=
  if windowAt env t then [(t, ASendServerError e)] else [].

(** [createServer()] called at [now]: the state once the chain of the
    call has run to its end, which is when [Promise.all] settles. The
    server variable is assigned in the [then] callback, at that time, so
    the result describes no call made in between. *)
Definition createServer (env : Env) (now : nat) (a : app) : app :=
  let promises := match server a with Some s => stopAt s now | None => [] end in
  let tr := match server a with Some s => [(now, AStop (sid s))] | None => [] end in
  let all := PromiseAll now promises in
  let t := settlesAt all in
  (* .catch(err => logger.error(...)) *)
  let tr := match outcome all with
            | Rejected e => tr ++ [(t, ALog Http.LError ("Main: Error creating server. " +:+ toString e))]
            | Fulfilled _ => tr
            end in
  (* .then(() => { server = new Server(db, config._); server.start(); })
     .catch(err => mainWindow.webContents.send(Rch.SERVER_ERROR, err)) *)
  match construct env (config a) with
  | inl e =>
      {| server := server a; config := config a;
         trace := trace a ++ tr ++ sendServerError env t e |}
  | inr s =>
      {| server := Some s; config := config a;
         trace := trace a ++ tr ++ [(t, ANew (sid s)); (t, AStart (sid s))]
                  ++ match startThrows s with
                     | Some e => sendServerError env t e
                     | None => []
                     end |}
  end.

(** The [will-quit] handler called at [now]. *)
Definition willQuit (env : Env) (now : nat) (a : app) : app :=
  let tr := [(now, ALog Http.LInfo "Main: App quit initiated. Cleaning up")] in
  match server a with
  | None => {| server := server a; config := config a; trace := trace a ++ tr |}
  | Some s =>
      let all := PromiseAll now (stopAt s now) in
      let t := settlesAt all in
      let tr := tr ++ [(now, AStop (sid s))] in
      let tail :=
        match outcome all with
        | Rejected e => [(t, ALog Http.LError ("Main: " +:+ toString e)); (t, AExit)]
        | Fulfilled _ =>
            let closed := closeDb env t in
            let t' := Nat.max t (settlesAt closed) in
            (t, ACloseDb) ::
            match outcome closed with
            | Fulfilled _ =>
                [(t', ALog Http.LInfo "Main: Cleaned all resources. Shutting down."); (t', AExit)]
            | Rejected e => [(t', ALog Http.LError ("Main: " +:+ toString e)); (t', AExit)]
            end
        end in
      {| server := server a; config := config a; trace := trace a ++ tr ++ tail |}
  end.

(** When the process built a server, if it did. *)
Definition builtAt (tr : list (nat * action)) : option nat :=
  fst <$> List.find (fun ta => match snd ta with ANew _ => true | _ => false end) tr.

End Main.

(* ===================================================================== *)
(** * What the specification speaks of                                    *)
(* ===================================================================== *)

Import Js Meta Http.

(** The request shapes the specification allows: exactly one segment, or
    exactly two of which the second is [meta]. *)
Definition validShape (segs : list string) : Prop :=
  List.length segs = 1%nat \/ (List.length segs = 2%nat /\ nth 1 segs "" = "meta").

(** Calls that reach an entry or the files behind it; resolving an
    identifier is not one. *)
Definition entryAccess (c : call) : bool :=
  match c with
  | CGetPathFromId _ => false
  | _ => true
  end.

(** The paths [incrementDownload] was called with, in order. *)
Definition increments (cs : list call) : list string :=
  omap (fun c => match c with CIncrementDownload p => Some p | _ => None end) cs.

(** The entry object the store holds for a path. *)
Definition entryAt (md : MetaData) (h : Meta.heap) (p : string) : option obj :=
  files md !! p ≫= fun l => h !! l.

(** The entry object an identifier resolves to, as the handlers look it
    up: by the path of the identifier, which must be truthy. *)
Definition resolve (md : MetaData) (h : Meta.heap) (i : string) : option obj :=
  match getPathFromId md i with
  | Some p => if String.eqb p "" then None else entryAt md h p
  | None => None
  end.

(** The path of the file a request fetches the content of, if it is such
    a request: [GET /{id}] where [id] resolves to an entry that is not a
    directory (and has a path). *)
Definition fetchedFile (md : MetaData) (h : Meta.heap) (req : request) : option string :=
  match segments (url req) with
  | [i] =>
      match resolve md h i with
      | Some o =>
          if isStr (getProp o "type") "dir" then None
          else match getProp o "path" with
               | VStr p => Some p
               | _ => None
               end
      | None => None
      end
  | _ => None
  end.

(** [{name, id}] of a shared child. *)
Definition childItem (md : MetaData) (h : Meta.heap) (child : string) : jsval :=
  let o := default [] (entryAt md h child) in
  VObj [("name", getProp o "name"); ("id", getProp o "id")].

(** The listing of a directory whose files are [names]: the children
    present in the store, each as [{name, id}]. *)
Definition sharedChildren (md : MetaData) (h : Meta.heap) (dir : string) (names : list string)
  : list jsval :=
  List.map (childItem md h)
    (List.filter (hasFile md) (List.map (Path.join dir) names)).

(** Several calls, recorded in order. *)
Definition recordAll (cs : list call) (w : world) : world :=
  fold_left (fun w c => record c w) cs w.

(** The calls the listing loop makes on the store. *)
Definition listingCalls (md : MetaData) (children : list string) : list call :=
  flat_map (fun c => if hasFile md c then [CHasFile c; CGetData (Some c)] else [CHasFile c])
           children.

(** ** A small share, for examples *)

Definition shareDir : FileEntry :=
  {| id := "d1"; path := "/share"; name := "share"; type := KDir;
     parentId := None; downloadCount := 0 |}.

Definition fileA : FileEntry :=
  {| id := "f1"; path := "/share/a.txt"; name := "a.txt"; type := KFile;
     parentId := Some "d1"; downloadCount := 4 |}.

Definition shareHeap : Meta.heap :=
  <[0%nat := entryObj shareDir]> (<[1%nat := entryObj fileA]> ∅).

Definition shareStore : MetaData :=
  {| ids := <["d1" := "/share"]> (<["f1" := "/share/a.txt"]> ∅);
     files := <["/share" := 0%nat]> (<["/share/a.txt" := 1%nat]> ∅) |}.

Definition enoent (p : string) : error :=
  newError ("ENOENT: no such file or directory, scandir '" +:+ p +:+ "'") "".

(** [/share] holds [a.txt], which is shared, and [b.txt], which is not. *)
Definition shareFs : FS :=
  {| readdir := fun p => if String.eqb p "/share" then inr ["a.txt"; "b.txt"] else inl (enoent p);
     canOpen := fun p => String.eqb p "/share/a.txt" || String.eqb p "/share/b.txt" |}.

(** The same store with an entry for [f1] that has lost its [path]: not
    well-formed. *)
Definition brokenHeap : Meta.heap :=
  <[1%nat := [("id", VStr "f1"); ("type", VStr "file")]]> shareHeap.

(** The same share after its files were removed from the disk. *)
Definition goneFs : FS :=
  {| readdir := fun p => inl (enoent p);
     canOpen := fun _ => false |}.

Definition get (u : string) : request :=
  {| url := u; remoteAddress := "192.168.1.7"; remotePort := 51234 |}.

Definition eaddrinuse : error :=
  newError "listen EADDRINUSE :::8001" "".

(** A network on which port 8001 is taken. *)
Definition busyNet : Net :=
  {| bindPort := fun p =>
       match p with
       | VNum 8001 => inl eaddrinuse
       | VNum n => inr ("::", n)
       | _ => inr ("::", 0)
       end;
     refuses := fun _ => None |}.

(** A service whose port is taken, and one that serves a connection. *)
Definition busyService : HTTPService :=
  {| metaData := Given shareStore; port := VNum 8001; server := Idle |}.

Definition servingService : HTTPService :=
  {| metaData := Given shareStore; port := VNum 8001; server := Listening 1 |}.

(** A service given a number that is no port. *)
Definition strayService : HTTPService :=
  {| metaData := Given shareStore; port := VNum 65536; server := Idle |}.

(** ** A server to restart *)

Definition closeFailed : error := newError "Not running" "".

Definition quick (now : nat) : Main.awaitable :=
  Main.Prom {| Main.settlesAt := now + 1; Main.outcome := Main.Rejected closeFailed |}.
Definition slow (now : nat) : Main.awaitable :=
  Main.Prom {| Main.settlesAt := now + 5; Main.outcome := Main.Fulfilled VUndef |}.

(** A running server of which one service fails to stop at once and the
    other takes its time. *)
Definition oldServer : Main.ServerInst :=
  {| Main.sid := 1; Main.stopAt := fun now => [quick now; slow now];
     Main.startThrows := None |}.

Definition newServer : Main.ServerInst :=
  {| Main.sid := 2; Main.stopAt := fun now => [Main.Plain VUndef; slow now];
     Main.startThrows := None |}.

Definition sampleEnv : Main.Env :=
  {| Main.construct := fun _ => inr newServer;
     Main.closeDb := fun now =>
       {| Main.settlesAt := now + 1; Main.outcome := Main.Fulfilled VUndef |};
     Main.windowAt := fun _ => true |}.

Definition running : Main.app :=
  {| Main.server := Some oldServer; Main.config := VObj [("httpPort", VNum 8001)];
     Main.trace := [] |}.

(** A server whose services return nothing from [stop()], as
    [HTTPService.stop] does. *)
Definition plainServer : Main.ServerInst :=
  {| Main.sid := 3; Main.stopAt := fun _ => [Main.Plain VUndef; Main.Plain VUndef];
     Main.startThrows := None |}.

(* ===================================================================== *)
(** * The owning process: the messages of the window                      *)
(* ===================================================================== *)

Module Ipc.

(** ** Objects, assigned to *)

(** [o[k] = v]: an own property keeps its place, a new one comes last. *)
Fixpoint setProp (o : obj) (k : string) (v : jsval) : obj :=
  match o with
  | [] => [(k, v)]
  | (k', v') :: rest =>
      if String.eqb k' k then (k, v) :: rest else (k', v') :: setProp rest k v
  end.

(** [Object.assign(target, source)] on two plain objects: the properties
    of [source] are set on [target] one after the other. *)
Definition assign (target source : obj) : obj :=
  fold_left (fun t kv => setProp t (fst kv) (snd kv)) source target.

(** ** Promise chains *)

(** A promise in a chain of [then] and [catch]: when it settles, how, and
    the state the callbacks run so far have left. *)
Record chain (S : Type) : Type := {
  when : nat;
  state : Main.settled;
  after : S
}.
Arguments when {S} c.
Arguments state {S} c.
Arguments after {S} c.

(** A callback: run at a time on a state, it changes the state and
    returns or throws. *)
Definition callback (A S : Type) : Type := nat -> A -> S -> S * completion.

Definition settle (r : completion) : Main.settled :=
  match r with
  | Returned v => Main.Fulfilled v
  | Threw e => Main.Rejected e
  end.

(** [p.then(f)]: [f] runs when [p] is fulfilled; a rejection passes by. *)
Definition thenDo {S} (c : chain S) (f : callback jsval S) : chain S :=
  match state c with
  | Main.Fulfilled v =>
      let '(s, r) := f (when c) v (after c) in
      {| when := when c; state := settle r; after := s |}
  | Main.Rejected _ => c
  end.

(** [p.catch(h)]: [h] runs when [p] is rejected; a value passes by. *)
Definition catchDo {S} (c : chain S) (h : callback error S) : chain S :=
  match state c with
  | Main.Rejected e =>
      let '(s, r) := h (when c) e (after c) in
      {| when := when c; state := settle r; after := s |}
  | Main.Fulfilled _ => c
  end.

(** ** The state of the interface: SAVE_STATE and GET_STATE *)

Inductive message : Type :=
  | SavedState
  | GotState (data : jsval).

(** The database as the two handlers use it, whether it is still open,
    whether [mainWindow] holds a window (it is [null] once the window is
    closed), what was sent to the window and what was logged. *)
Record world : Type := {
  store : gmap string jsval;
  dbOpen : bool;
  window : bool;
  sent : list (nat * message);
  logged : list (nat * (level * string))
}.

(** The errors of the database carry their own names. *)
Definition named (n msg : string) : error :=
  {| Js.ename := n; Js.message := msg; Js.code := None;
     Js.stack := n +:+ ": " +:+ msg |}.

Definition notFound (k : string) : error :=
  named "NotFoundError" ("Key not found in database [" +:+ k +:+ "]").
Definition dbClosed : error := named "ReadError" "Database is not open".
Definition noWindow : error :=
  typeError "Cannot read property 'webContents' of null" "".

(** [db.put(k, v)] called at [now], settling [delay] later. The database
    encodes what it is given: [enc v] is the value a later [get] decodes
    for [v], or the error [put] rejects [v] with. *)
Definition dbPut (enc : jsval -> error + jsval) (now delay : nat) (k : string) (v : jsval)
    (w : world) : chain world :=
  if dbOpen w then
    match enc v with
    | inr v' =>
        {| when := now + delay; state := Main.Fulfilled VUndef;
           after := {| store := <[k := v']> (store w); dbOpen := dbOpen w;
                       window := window w; sent := sent w; logged := logged w |} |}
    | inl e => {| when := now + delay; state := Main.Rejected e; after := w |}
    end
  else {| when := now + delay; state := Main.Rejected dbClosed; after := w |}.

(** [db.get(k)] called at [now], settling [delay] later. *)
Definition dbGet (now delay : nat) (k : string) (w : world) : chain world :=
  {| when := now + delay;
     state := if dbOpen w then
                match store w !! k with
                | Some v => Main.Fulfilled v
                | None => Main.Rejected (notFound k)
                end
              else Main.Rejected dbClosed;
     after := w |}.

(** [mainWindow.webContents.send(m)] *)
Definition send (m : message) (t : nat) (w : world) : world * completion :=
  if window w then
    ({| store := store w; dbOpen := dbOpen w; window := window w;
        sent := sent w ++ [(t, m)]; logged := logged w |}, Returned VUndef)
  else (w, Threw noWindow).

(** [logger.error] and [logger.info] of [`Main: ${err}`]. *)
Definition logErr (l : level) (t : nat) (err : error) (w : world) : world * completion :=
  ({| store := store w; dbOpen := dbOpen w; window := window w; sent := sent w;
      logged := logged w ++ [(t, (l, "Main: " +:+ toString err))] |}, Returned VUndef).

(** The SAVE_STATE listener. *)
Definition saveState (enc : jsval -> error + jsval) (now delay : nat) (st : jsval) (w : world)
  : chain world :=
  thenDo
    (catchDo (dbPut enc now delay "redux" st w) (logErr LError))
    (fun t _ => send SavedState t).

(** The GET_STATE listener. *)
Definition getState (now delay : nat) (w : world) : chain world :=
  catchDo
    (thenDo (dbGet now delay "redux" w) (fun t data => send (GotState data) t))
    (logErr LInfo).

(** ** CONFIG_UPDATE *)

Definition notAnObject : error :=
  typeError "Cannot convert undefined or null to object" "".

(** The CONFIG_UPDATE listener called at [now] with the object [update]:
    [write t c] is the promise of [config.write()] called at [t] with the
    configuration [c]. [undefined] or [null] in place of the configuration
    makes [Object.assign] throw; a number or a boolean takes no property.
    A string or an array as the configuration is outside this model (the
    indices and the length are properties of theirs): [None]. *)
Definition onConfigUpdate (env : Main.Env) (write : nat -> jsval -> Main.promise)
    (now : nat) (update : obj) (a : Main.app) : option (error + Main.app) :=
  let restart c :=
    let a1 := {| Main.server := Main.server a; Main.config := c;
                 Main.trace := Main.trace a |} in
    let written := write now c in
    match Main.outcome written with
    | Main.Fulfilled _ => Main.createServer env (Nat.max now (Main.settlesAt written)) a1
    | Main.Rejected _ => a1
    end in
  match Main.config a with
  | VObj o => Some (inr (restart (VObj (assign o update))))
  | VUndef | VNull => Some (inl notAnObject)
  | VBool b => Some (inr (restart (VBool b)))
  | VNum n => Some (inr (restart (VNum n)))
  | VStr _ | VArr _ => None
  end.

(** ** init: the configuration *)

(** Lines 115 to 125 of [init]: the configuration read from the file, or,
    when that one is empty, the default one with the path of the database
    (and self respond switched on in development); the flag tells whether
    the file is written. *)
Definition initConfig (development : bool) (defaults : obj) (dbPath : string) (loaded : obj)
  : obj * bool :=
  if (List.length loaded =? 0)%nat then
    let c := setProp defaults "db" (VStr dbPath) in
    let c := if development then setProp c "selfRespond" (VBool true) else c in
    (c, true)
  else (loaded, false).

End Ipc.

(* ===================================================================== *)
(** * What the properties speak of                                        *)
(* ===================================================================== *)

(** ** Paths *)

(** No separator in the string. *)
Definition slashFree (s : string) : bool :=
  forallb (fun c => negb (Ascii.eqb c "/")) (list_ascii_of_string s).

(** A name as [readdir] gives it and as a segment of a normalized path:
    not empty, no separator in it, and not [.] or [..]. *)
Definition plain (s : string) : bool :=
  slashFree s && negb (String.eqb s "") && negb (String.eqb s ".") && negb (String.eqb s "..").

(** An absolute path in normal form, from its segments. *)
Definition absolute (segs : list string) : string := "/" +:+ join "/" segs.

(** ** Requests, one after the other *)

(** The same request for another URL. *)
Definition withUrl (u : string) (req : request) : request :=
  {| url := u; remoteAddress := remoteAddress req; remotePort := remotePort req |}.

(** The entry with [n] more downloads counted. *)
Definition counted (n : Z) (e : FileEntry) : FileEntry :=
  {| id := id e; path := path e; name := name e; type := type e;
     parentId := parentId e; downloadCount := downloadCount e + n |}.

(** The heap after a request is served, and after several are, one after
    the other. *)
Definition serve (md : MetaData) (fs : FS) (req : request) (h : Meta.heap) : Meta.heap :=
  heap (rootHandler md fs req (arrive h)).

Definition serveAll (md : MetaData) (fs : FS) (reqs : list request) (h : Meta.heap)
  : Meta.heap :=
  fold_left (fun h r => serve md fs r h) reqs h.

(** How many of the requests fetch the content of the file at [p]. *)
Definition fetches (md : MetaData) (h : Meta.heap) (p : string) (reqs : list request) : nat :=
  List.length (List.filter (fun r => bool_decide (fetchedFile md h r = Some p)) reqs).

(** An identifier the store resolves to a path it holds no entry for. *)
Definition staleStore : MetaData :=
  {| ids := <["old" := "/share/old.txt"]> (ids shareStore); files := files shareStore |}.

(** ** The process *)

(** What [put] makes of a value in a world: the value it stores, or the
    error it rejects with. *)
Definition putResult (enc : jsval -> error + jsval) (v : jsval) (w : Ipc.world)
  : error + jsval :=
  if Ipc.dbOpen w then enc v else inl Ipc.dbClosed.

Definition isExit (x : Main.action) : bool :=
  match x with Main.AExit => true | _ => false end.

Definition isCloseDb (x : Main.action) : bool :=
  match x with Main.ACloseDb => true | _ => false end.

Definition isNew (x : Main.action) : bool :=
  match x with Main.ANew _ => true | _ => false end.

Definition isSend (x : Main.action) : bool :=
  match x with Main.ASendServerError _ => true | _ => false end.

(** How many of the actions satisfy [f]. *)
Definition howMany (f : Main.action -> bool) (tr : list (nat * Main.action)) : nat :=
  List.length (List.filter f (List.map snd tr)).

(** An open database, a window, nothing sent or logged yet. *)
Definition freshIpc : Ipc.world :=
  {| Ipc.store := ∅; Ipc.dbOpen := true; Ipc.window := true; Ipc.sent := []; Ipc.logged := [] |}.

(** The same with the window closed. *)
Definition windowless : Ipc.world :=
  {| Ipc.store := ∅; Ipc.dbOpen := true; Ipc.window := false; Ipc.sent := [];
     Ipc.logged := [] |}.

Definition reduxState : jsval := VObj [("downloads", VArr [VStr "f1"])].

Definition sampleConfig : obj := [("httpPort", VNum 8001); ("selfRespond", VBool false)].

(** A configuration file written two ticks after the call. *)
Definition writeSoon (now : nat) (c : jsval) : Main.promise :=
  {| Main.settlesAt := now + 2; Main.outcome := Main.Fulfilled VUndef |}.

(** A process in which [new Server] throws (no port in the
    configuration) and the window is closed at time 4. *)
Definition brokenEnv : Main.Env :=
  {| Main.construct := fun _ => inl (newError "Port not passed to HTTPService." "");
     Main.closeDb := Main.closeDb sampleEnv;
     Main.windowAt := fun t => (t <? 4)%nat |}.

(* ===================================================================== *)
(** * Properties                                                          *)
(* ===================================================================== *)

(** ** Strings and requests *)

Lemma split_cons sep s : exists piece rest, split sep s = piece :: rest.
Proof.
  induction s as [|a r IH]; simpl; [by eauto|].
  destruct (Ascii.eqb a sep); [by eauto|].
  destruct IH as (piece & rest & ->). by eauto.
Qed.

Lemma segments_cons u : exists i rest, segments u = i :: rest.
Proof. unfold segments. apply split_cons. Qed.

(** The test of [validateRequest] rejects exactly the shapes that are not
    valid. *)
Lemma shape_test segs :
  segs <> [] ->
  ((2 <? List.length segs)%nat
   || ((List.length segs =? 2)%nat && negb (String.eqb (nth 1 segs "") "meta")) = false)
  <-> validShape segs.
Proof.
  intros Hne. unfold validShape.
  destruct segs as [|a [|b [|c rest]]]; simpl; try done.
  - intuition.
  - destruct (String.eqb_spec b "meta") as [->|Hb]; simpl; intuition congruence.
  - split; [done|]. intros [H|[H _]]; discriminate H.
Qed.

Lemma falsyPath_None p : p = None -> falsyPath p = true.
Proof. by intros ->. Qed.

Lemma resolve_inv md h i o :
  resolve md h i = Some o ->
  exists p l, getPathFromId md i = Some p /\ falsyPath (Some p) = false
              /\ files md !! p = Some l /\ h !! l = Some o.
Proof.
  unfold resolve, entryAt. destruct (getPathFromId md i) as [p|]; [|done].
  simpl. destruct (String.eqb p "") eqn:Hp; [done|].
  destruct (files md !! p) as [l|] eqn:Hl; simpl; [|done].
  intros Ho. exists p, l. by rewrite Hp.
Qed.

(** ** Property lists *)

Lemma hasProp_deleteProp o k : hasProp (deleteProp o k) k = false.
Proof.
  unfold hasProp, deleteProp. induction o as [|[k' v] o IH]; simpl; [done|].
  destruct (String.eqb k' k) eqn:E; simpl; [done|]. by rewrite E.
Qed.

Lemma getProp_deleteProp_ne o k k' :
  k' <> k -> getProp (deleteProp o k) k' = getProp o k'.
Proof.
  intros Hne. unfold deleteProp. induction o as [|[k0 v] o IH]; simpl; [done|].
  destruct (String.eqb_spec k0 k) as [->|Hk]; simpl.
  - destruct (String.eqb_spec k k'); [congruence|done].
  - by rewrite IH.
Qed.

Lemma getProp_bump_ne o k :
  k <> "downloadCount" -> getProp (bump o) k = getProp o k.
Proof.
  intros Hne. unfold bump. induction o as [|[k0 v] o IH]; [done|].
  cbn [List.map getProp]. rewrite IH.
  assert (bumpProp (k0, v) = (k0, v) \/ (k0 = "downloadCount" /\ exists v', bumpProp (k0, v) = (k0, v')))
    as [->|[-> [v' ->]]]; [|done|].
  - unfold bumpProp. destruct v; auto.
    destruct (String.eqb_spec k0 "downloadCount"); eauto.
  - destruct (String.eqb_spec "downloadCount" k); [congruence|done].
Qed.

(** ** The pieces of a request, run *)

(** Unfold the steps of a computation. *)
Ltac run := unfold bind, ret, throw, effect, mGetPathFromId, mGetData, mHasFile; simpl.

Lemma validate_run md req w :
  validateRequest md req w =
  let segs := segments (url req) in
  if (2 <? List.length segs)%nat
     || ((List.length segs =? 2)%nat && negb (String.eqb (nth 1 segs "") "meta"))
  then (inl (withCode (newError "Invalid URL" " at HTTPService.validateRequest") 404), w)
  else if falsyPath (getPathFromId md (first segs))
  then (inl (withCode (newError "Resource not found" " at HTTPService.validateRequest") 404),
        record (CGetPathFromId (first segs)) w)
  else (inr segs, record (CGetPathFromId (first segs)) w).
Proof.
  unfold validateRequest. cbv zeta.
  destruct (_ || _); [done|]. run.
  by destruct (falsyPath _).
Qed.


Lemma handle_run md fs req w :
  handle md fs req w =
  match validateRequest md req (logAt LInfo (requestLine req) w) with
  | (inr segs, w') =>
      if (List.length segs =? 2)%nat then metaDataRequestHandler md segs w'
      else fileRequestHandler md fs segs w'
  | (inl e, w') => (inl e, w')
  end.
Proof.
  unfold handle, bind, effect.
  destruct (validateRequest _ _ _) as [[e|segs] w']; [done|].
  by destruct (_ =? _)%nat.
Qed.


Lemma heap_recordAll cs w : heap (recordAll cs w) = heap w.
Proof. revert w. induction cs as [|c cs IH]; intros w; simpl; [done|]. by rewrite IH. Qed.
Lemma res_recordAll cs w : res (recordAll cs w) = res w.
Proof. revert w. induction cs as [|c cs IH]; intros w; simpl; [done|]. by rewrite IH. Qed.
Lemma log_recordAll cs w : log (recordAll cs w) = log w.
Proof. revert w. induction cs as [|c cs IH]; intros w; simpl; [done|]. by rewrite IH. Qed.
Lemma calls_recordAll cs w : calls (recordAll cs w) = calls w ++ cs.
Proof.
  revert w. induction cs as [|c cs IH]; intros w; simpl; [by rewrite app_nil_r|].
  rewrite IH. simpl. by rewrite <- app_assoc.
Qed.
Lemma recordAll_app cs cs' w : recordAll (cs ++ cs') w = recordAll cs' (recordAll cs w).
Proof. apply fold_left_app. Qed.

Lemma meta_run md segs w :
  let p := getPathFromId md (first segs) in
  let o := default [] ((p ≫= getData md) ≫= fun l => heap w !! l) in
  let l' := fresh (dom (heap w)) in
  metaDataRequestHandler md segs w =
  (inr tt,
   endRes (withChunk (stringify (VObj (deleteProp o "path")))
     (withHead 200 jsonType
       (setHeap (<[l' := deleteProp o "path"]> (heap w))
          (recordAll [CGetPathFromId (first segs); CGetData p] w))))).
Proof.
  cbv zeta. unfold metaDataRequestHandler, bind, effect, mGetPathFromId, mGetData, spread,
    deleteAt, stringifyAt, writeHead, write, effect. simpl.
  rewrite lookup_alter_eq, lookup_insert_eq. simpl.
  do 4 f_equal. unfold setHeap. simpl. f_equal.
  apply map_eq. intros l. rewrite lookup_alter.
  case_decide as E; [subst; by rewrite !lookup_insert_eq|].
  by rewrite !lookup_insert_ne.
Qed.

Lemma listing_run md children w :
  listing md children w =
  (inr (List.map (childItem md (heap w)) (List.filter (hasFile md) children)),
   recordAll (listingCalls md children) w).
Proof.
  revert w. induction children as [|c rest IH]; intros w; [done|].
  cbn [listing]. unfold bind at 1. unfold mHasFile at 1. cbn [List.filter listingCalls flat_map].
  destruct (hasFile md c) eqn:Hc.
  - unfold bind, mGetData, prop. simpl.
    unfold hasFile in Hc. apply bool_decide_eq_true in Hc as [l Hl].
    unfold getData. rewrite Hl. rewrite IH. simpl.
    unfold childItem at 2, entryAt. rewrite Hl. simpl. done.
  - rewrite IH. done.
Qed.

Lemma file_run md fs segs w :
  let p := getPathFromId md (first segs) in
  let w1 := recordAll [CGetPathFromId (first segs); CGetData p] w in
  fileRequestHandler md fs segs w =
  match p ≫= getData md with
  | None => (inl (undefinedProp "path"), w1)
  | Some l =>
      let o := default [] (heap w !! l) in
      if isStr (getProp o "type") "dir" then
        match getProp o "path" with
        | VStr d =>
            match readdir fs d with
            | inl e => (inl e, record (CReaddir d) w1)
            | inr names =>
                let children := List.map (Path.join d) names in
                (inr tt,
                 endRes (withChunk
                   (stringify (VObj [("id", VStr (first segs));
                                     ("children", VArr (sharedChildren md (heap w) d names))]))
                   (withHead 200 jsonType
                      (recordAll (CReaddir d :: listingCalls md children) w1))))
            end
        | _ => (inl (badPath " at readdir"), w1)
        end
      else
        match getProp o "path" with
        | VStr f =>
            (inr tt,
             setHeap (incrementDownload md f (heap w))
               (record (CIncrementDownload f)
                  (withPipe f (record (CCreateReadStream f) (withHead 200 octetType w1)))))
        | _ => (inl (badPath " at createReadStream"), withHead 200 octetType w1)
        end
  end.
Proof.
  cbv zeta. unfold fileRequestHandler, bind at 1 2, mGetPathFromId at 1, mGetData at 1.
  simpl. destruct (getPathFromId md (first segs) ≫= getData md) as [l|] eqn:Hl; [|done].
  unfold bind at 1 2. unfold prop. simpl.
  destruct (isStr _ "dir").
  - unfold mReaddir, bind at 1 2. unfold pathArg.
    destruct (getProp _ "path") as [| | | |d| |]; try done.
    unfold ret. destruct (readdir fs d) as [e|names]; [done|].
    unfold bind at 1. rewrite listing_run. simpl. done.
  - unfold bind at 1 2. unfold writeHead, effect, mCreateReadStream, bind at 1, pathArg.
    destruct (getProp _ "path") as [| | | |f| |]; done.
Qed.
(** What [rootHandler] does once the request is known to be valid. *)
Lemma root_valid md fs req h i rest p :
  segments (url req) = i :: rest ->
  validShape (i :: rest) ->
  getPathFromId md i = Some p -> falsyPath (Some p) = false ->
  let w0 := record (CGetPathFromId i) (logAt LInfo (requestLine req) (arrive h)) in
  handle md fs req (arrive h) =
  if (List.length (i :: rest) =? 2)%nat then metaDataRequestHandler md (i :: rest) w0
  else fileRequestHandler md fs (i :: rest) w0.
Proof.
  intros Hsegs Hshape Hp Hfalsy. cbv zeta.
  rewrite handle_run, validate_run. cbv zeta. rewrite Hsegs.
  apply shape_test in Hshape as ->; [|done].
  unfold first. cbn [hd]. rewrite Hp, Hfalsy. done.
Qed.

Lemma increments_app cs cs' : increments (cs ++ cs') = increments cs ++ increments cs'.
Proof. apply omap_app. Qed.

Lemma increments_listingCalls md children : increments (listingCalls md children) = [].
Proof.
  induction children as [|c rest IH]; [done|].
  cbn [listingCalls flat_map]. rewrite increments_app. fold (listingCalls md rest). rewrite IH.
  by destruct (hasFile md c).
Qed.

(** The three ways a request goes through [validateRequest]. *)
Lemma handle_cases md fs req h :
  let segs := segments (url req) in
  let w0 := logAt LInfo (requestLine req) (arrive h) in
  (~ validShape segs /\ exists e, code e = Some 404 /\ handle md fs req (arrive h) = (inl e, w0))
  \/ (validShape segs /\ falsyPath (getPathFromId md (first segs)) = true
      /\ exists e, code e = Some 404
         /\ handle md fs req (arrive h) = (inl e, record (CGetPathFromId (first segs)) w0))
  \/ (exists i rest p, segs = i :: rest /\ validShape segs
      /\ getPathFromId md i = Some p /\ falsyPath (Some p) = false
      /\ handle md fs req (arrive h) =
         if (List.length segs =? 2)%nat
         then metaDataRequestHandler md segs (record (CGetPathFromId i) w0)
         else fileRequestHandler md fs segs (record (CGetPathFromId i) w0)).
Proof.
  cbv zeta. destruct (segments_cons (url req)) as (i & rest & Hsegs).
  assert (Hne : segments (url req) <> []) by (by rewrite Hsegs).
  rewrite handle_run, validate_run. cbv zeta.
  destruct (_ || _) eqn:Etest.
  - left. split; [|eexists; split; [|reflexivity]; reflexivity].
    intros Hv. apply (shape_test _ Hne) in Hv. congruence.
  - right. apply (shape_test _ Hne) in Etest.
    destruct (falsyPath _) eqn:Efalsy.
    + left. do 2 (split; [done|]). eexists; split; [|reflexivity]; reflexivity.
    + right. exists i, rest. rewrite Hsegs in *. unfold first in *. cbn [hd] in *.
      destruct (getPathFromId md i) as [p|] eqn:Hp; [|done].
      exists p. done.
Qed.


(** What a request leaves behind: the calls to [incrementDownload], and
    the objects that were there before. *)
Lemma root_effects md fs req h :
  let w := rootHandler md fs req (arrive h) in
  increments (calls w) = match fetchedFile md h req with Some p => [p] | None => [] end
  /\ forall l o, h !! l = Some o ->
       heap w !! l =
       match fetchedFile md h req with
       | Some p => incrementDownload md p h
       | None => h
       end !! l.
Proof.
  cbv zeta. unfold rootHandler, fetchedFile.
  destruct (handle_cases md fs req h)
    as [(Hshape & e & He & ->)|[(Hshape & Hfalsy & e & He & ->)
       |(i & rest & p & Hsegs & Hshape & Hp & Hfalsy & ->)]].
  - unfold recover. rewrite He. simpl.
    destruct (segments (url req)) as [|i [|]]; try done.
    exfalso. apply Hshape. by left.
  - unfold recover. rewrite He. simpl.
    destruct (segments (url req)) as [|i [|]]; try done.
    unfold first in Hfalsy. cbn [hd] in Hfalsy. unfold resolve.
    destruct (getPathFromId md i); [|done]. simpl in Hfalsy. by rewrite Hfalsy.
  - rewrite Hsegs in *. destruct Hshape as [Hone|[Htwo Hmeta]].
    + destruct rest; [|done]. cbn [List.length Nat.eqb].
      rewrite file_run. cbv zeta. unfold first. cbn [hd]. rewrite Hp. cbn [mbind option_bind].
      unfold resolve, entryAt. rewrite Hp. simpl in Hfalsy. rewrite Hfalsy. unfold getData.
      destruct (files md !! p) as [l|] eqn:Hl; cbn [mbind option_bind].
      2:{ unfold recover. simpl. done. }
      cbn [heap record logAt arrive].
      destruct (h !! l) as [o|] eqn:Ho; cbn [default]; unfold Datatypes.id.
      * destruct (isStr (getProp o "type") "dir").
        -- destruct (getProp o "path") as [| | | |d| |]; try (unfold recover; simpl; done).
           destruct (readdir fs d) as [e|names].
           ++ unfold recover. by destruct (bool_decide _).
           ++ cbn [calls heap endRes withChunk withHead setRes].
              rewrite calls_recordAll, heap_recordAll.
              rewrite increments_app. cbn [increments omap]. simpl.
              split; [apply increments_listingCalls|done].
        -- destruct (getProp o "path"); unfold recover; simpl; done.
      * unfold recover; simpl. done.
    + destruct rest as [|m [|]]; try done. cbn [List.length Nat.eqb].
      rewrite meta_run. cbv zeta. split; [done|].
      intros l o Ho. cbn [heap endRes withChunk withHead setRes setHeap].
      apply lookup_insert_ne. intros <-.
      pose proof (is_fresh (dom h)) as Hfresh. apply not_elem_of_dom in Hfresh.
      simpl in Ho. congruence.
Qed.

Lemma wf_path md h p l :
  wf md h -> files md !! p = Some l ->
  exists o, h !! l = Some o /\ getProp o "path" = VStr p.
Proof.
  intros Hwf Hl. destruct (Hwf p l Hl) as (e & He & Hpath).
  exists (entryObj e). split; [done|]. by rewrite <- Hpath.
Qed.

(** With a well-formed store nothing throws once a head is written. *)
Lemma throws_before_head md fs req h err w' :
  wf md h ->
  handle md fs req (arrive h) = (inl err, w') ->
  res w' = freshResponse.
Proof.
  intros Hwf.
  destruct (handle_cases md fs req h)
    as [(Hshape & e & He & ->)|[(Hshape & Hfalsy & e & He & ->)
       |(i & rest & p & Hsegs & Hshape & Hp & Hfalsy & ->)]].
  - by intros [= _ <-].
  - by intros [= _ <-].
  - rewrite Hsegs in *. destruct ((_ =? 2)%nat).
    + rewrite meta_run. done.
    + rewrite file_run. cbv zeta. unfold first. cbn [hd]. rewrite Hp. cbn [mbind option_bind].
      unfold getData. destruct (files md !! p) as [l|] eqn:Hl; [|by intros [= _ <-]].
      destruct (wf_path _ _ _ _ Hwf Hl) as (o & Ho & Hpath).
      cbn [heap record logAt arrive]. rewrite Ho. cbn [default]. unfold Datatypes.id.
      rewrite Hpath.
      destruct (isStr _ "dir"); [|done].
      destruct (readdir fs p); [|done]. by intros [= _ <-].
Qed.

Lemma fetchedFile_inv md h req p :
  fetchedFile md h req = Some p ->
  exists i o, segments (url req) = [i] /\ resolve md h i = Some o
              /\ isStr (getProp o "type") "dir" = false /\ getProp o "path" = VStr p.
Proof.
  unfold fetchedFile. destruct (segments (url req)) as [|i [|]] eqn:Hsegs; try done.
  destruct (resolve md h i) as [o|] eqn:Hres; [|done].
  destruct (isStr _ "dir") eqn:Hty; [done|].
  destruct (getProp o "path") as [| | | |f| |] eqn:Hpath; try done.
  intros [= <-]. by exists i, o.
Qed.


(** A file fetch, call by call. *)
Lemma file_fetch_run md fs req h p :
  fetchedFile md h req = Some p ->
  exists i q,
    rootHandler md fs req (arrive h) =
    setHeap (incrementDownload md p h)
      (record (CIncrementDownload p)
         (withPipe p
            (record (CCreateReadStream p)
               (withHead 200 octetType
                  (recordAll [CGetPathFromId i; CGetPathFromId i; CGetData (Some q)]
                     (logAt LInfo (requestLine req) (arrive h))))))).
Proof.
  intros H. apply fetchedFile_inv in H as (i & o & Hsegs & Hres & Hty & Hpath).
  destruct (resolve_inv _ _ _ _ Hres) as (q & l & Hq & Hfalsy & Hl & Ho).
  exists i, q. unfold rootHandler.
  rewrite (root_valid md fs req h i [] q Hsegs); [|by left|done|done].
  cbn [List.length Nat.eqb]. rewrite file_run. cbv zeta.
  unfold first. cbn [hd]. rewrite Hq. simpl. unfold getData. rewrite Hl. simpl.
  rewrite Ho. simpl. by rewrite Hty, Hpath.
Qed.

Lemma share_wf : wf shareStore shareHeap.
Proof.
  intros p l Hl. unfold shareStore in Hl. cbn [files] in Hl.
  apply lookup_insert_Some in Hl as [[<- <-]|[_ Hl]].
  { exists shareDir. by vm_compute. }
  apply lookup_insert_Some in Hl as [[<- <-]|[_ Hl]].
  { exists fileA. by vm_compute. }
  by rewrite lookup_empty in Hl.
Qed.

(** ** Promise.all *)

Section PromiseAll.
Import Main.

Lemma settleTime_ge now a : (now <= settleTime now a)%nat.
Proof. destruct a; simpl; lia. Qed.

Lemma firstRejection_None now items :
  firstRejection now items = None <-> Forall (fun a => rejection a = None) items.
Proof.
  induction items as [|a rest IH]; simpl; [by split|].
  rewrite Forall_cons. destruct (rejection a) as [e|].
  - split; [|by intros [? _]].
    destruct (firstRejection now rest) as [[t' e']|]; [|done].
    by destruct (_ <=? _)%nat.
  - rewrite IH. split; [by intros H|by intros [_ H]].
Qed.

(** The rejection [Promise.all] reports is one of the items' and none
    of them rejects before it. *)
Lemma firstRejection_Some now items t e :
  firstRejection now items = Some (t, e) ->
  (exists a, a ∈ items /\ rejection a = Some e /\ settleTime now a = t)
  /\ forall b, b ∈ items -> is_Some (rejection b) -> (t <= settleTime now b)%nat.
Proof.
  revert t e. induction items as [|a rest IH]; intros t e; simpl; [done|].
  destruct (rejection a) as [ea|] eqn:Ha.
  - destruct (firstRejection now rest) as [[t' e']|] eqn:Hrest.
    + destruct (IH t' e' eq_refl) as [(x & Hx & Hrx & Htx) Hmin].
      destruct (Nat.leb_spec (settleTime now a) t') as [Hle|Hgt].
      * intros [= <- <-]. split.
        -- exists a. split; [by left|done].
        -- intros b [->|Hb]%elem_of_cons Hrej; [done|].
           specialize (Hmin b Hb Hrej). lia.
      * intros [= <- <-]. split.
        -- exists x. split; [by right|done].
        -- intros b [->|Hb]%elem_of_cons Hrej; [lia|by apply Hmin].
    + intros [= <- <-]. split.
      * exists a. split; [by left|done].
      * intros b [->|Hb]%elem_of_cons Hrej; [done|].
        apply firstRejection_None in Hrest.
        rewrite Forall_forall in Hrest. specialize (Hrest b Hb).
        rewrite Hrest in Hrej. by destruct Hrej.
  - intros Hrest. destruct (IH t e Hrest) as [(x & Hx & Hrx & Htx) Hmin].
    split.
    + exists x. split; [by right|done].
    + intros b [->|Hb]%elem_of_cons Hrej; [|by apply Hmin].
      rewrite Ha in Hrej. by destruct Hrej.
Qed.

Lemma fold_max_ge now items :
  (now <= fold_right Nat.max now (List.map (settleTime now) items))%nat
  /\ Forall (fun a => (settleTime now a <= fold_right Nat.max now (List.map (settleTime now) items))%nat) items.
Proof.
  induction items as [|a rest [IH1 IH2]]; simpl; [by split|].
  split; [lia|]. constructor; [lia|].
  eapply Forall_impl; [exact IH2|]. simpl. intros; lia.
Qed.

(** [Promise.all] never settles before it is called. *)
Lemma PromiseAll_ge now items : (now <= settlesAt (PromiseAll now items))%nat.
Proof.
  unfold PromiseAll. destruct (firstRejection now items) as [[t e]|] eqn:Hr; simpl.
  - destruct (firstRejection_Some _ _ _ _ Hr) as [(a & _ & _ & <-) _].
    apply settleTime_ge.
  - apply fold_max_ge.
Qed.

(** With no rejection it is fulfilled when the last item is. *)
Lemma PromiseAll_fulfilled now items :
  Forall (fun a => rejection a = None) items ->
  (exists v, outcome (PromiseAll now items) = Fulfilled v)
  /\ Forall (fun a => (settleTime now a <= settlesAt (PromiseAll now items))%nat) items.
Proof.
  intros Hnone. apply (proj2 (firstRejection_None now items)) in Hnone.
  unfold PromiseAll. rewrite Hnone. simpl. split; [by eexists|]. apply fold_max_ge.
Qed.

(** With a rejection it is rejected at the earliest one. *)
Lemma PromiseAll_rejected now items e :
  outcome (PromiseAll now items) = Rejected e ->
  (exists a, a ∈ items /\ rejection a = Some e
             /\ settleTime now a = settlesAt (PromiseAll now items))
  /\ forall b, b ∈ items -> is_Some (rejection b) ->
       (settlesAt (PromiseAll now items) <= settleTime now b)%nat.
Proof.
  unfold PromiseAll. destruct (firstRejection now items) as [[t e']|] eqn:Hr; simpl; [|done].
  intros [= ->]. by apply firstRejection_Some.
Qed.
End PromiseAll.

(* ===================================================================== *)
(** * The transfer service, request by request                            *)
(* ===================================================================== *)

Example split_root : split "/" "" = [""].
Proof. reflexivity. Qed.

Example split_gap : split "/" "a//b" = ["a"; ""; "b"].
Proof. reflexivity. Qed.

Example segments_meta : segments "/ab12/meta/" = ["ab12"; "meta"].
Proof. reflexivity. Qed.

Example join_child : Path.join "/share" "a.txt" = "/share/a.txt".
Proof. reflexivity. Qed.

(** C1: a request whose path, split into segments, is not exactly one
    segment or exactly two with [meta] as the second, or whose first
    segment the store resolves to no path, is answered with status 404 on
    an ended, empty response; the only call made on the store is the
    resolution of the identifier, and no object changes. *)
Theorem unresolvable_is_404 md fs req h :
  ~ validShape (segments (url req))
  \/ getPathFromId md (first (segments (url req))) = None ->
  let w := rootHandler md fs req (arrive h) in
  sentStatus (res w) = 404 /\ sentHeaders (res w) = [] /\ body (res w) = []
  /\ piped (res w) = None /\ ended (res w) = true
  /\ Forall (fun c => entryAccess c = false) (calls w) /\ heap w = h.
Proof.
  intros Hbad. cbv zeta. unfold rootHandler.
  rewrite handle_run, validate_run. cbv zeta.
  destruct (segments_cons (url req)) as (i & rest & Hsegs).
  destruct (_ || _) eqn:Eshape.
  - simpl. repeat split; auto.
  - destruct Hbad as [Hbad|Hnone].
    + exfalso. apply Hbad. apply shape_test; [by rewrite Hsegs|done].
    + rewrite Hnone. simpl. repeat split; auto.
Qed.

(** Three segments, an unknown identifier, and the empty path, whose one
    segment is the empty identifier. *)
Lemma unresolvable_is_404_example :
  sentStatus (res (rootHandler shareStore shareFs (get "/f1/meta/x") (arrive shareHeap))) = 404
  /\ sentStatus (res (rootHandler shareStore shareFs (get "/nope") (arrive shareHeap))) = 404
  /\ sentStatus (res (rootHandler shareStore shareFs (get "/") (arrive shareHeap))) = 404.
Proof.
  split; [|split].
  - apply (unresolvable_is_404 shareStore shareFs (get "/f1/meta/x") shareHeap).
    left. vm_compute. intros [H|[H _]]; discriminate H.
  - apply (unresolvable_is_404 shareStore shareFs (get "/nope") shareHeap).
    right. vm_compute. reflexivity.
  - apply (unresolvable_is_404 shareStore shareFs (get "/") shareHeap).
    right. vm_compute. reflexivity.
Defined.

(** C3: for an identifier that resolves to an entry object [o], the answer
    to [GET /{id}/meta] has status 200, content type [application/json]
    and as its body the JSON text of [o] without its [path] property: the
    object serialized has no [path], and every other property as in [o]. *)
Theorem meta_response md fs req h i o :
  segments (url req) = [i; "meta"] ->
  resolve md h i = Some o ->
  let w := rootHandler md fs req (arrive h) in
  sentStatus (res w) = 200 /\ sentHeaders (res w) = jsonType
  /\ body (res w) = [stringify (VObj (deleteProp o "path"))]
  /\ ended (res w) = true
  /\ hasProp (deleteProp o "path") "path" = false
  /\ (forall k, k <> "path" -> getProp (deleteProp o "path") k = getProp o k).
Proof.
  intros Hsegs Hres. cbv zeta.
  destruct (resolve_inv _ _ _ _ Hres) as (p & l & Hp & Hfalsy & Hl & Ho).
  unfold rootHandler.
  rewrite (root_valid md fs req h i ["meta"] p Hsegs); [|right; done|done|done].
  cbn [List.length Nat.eqb]. rewrite meta_run. cbv zeta.
  unfold first. cbn [hd]. rewrite Hp. simpl. unfold getData. rewrite Hl. simpl. rewrite Ho. simpl.
  repeat split; auto using hasProp_deleteProp, getProp_deleteProp_ne.
Qed.

Lemma meta_response_example :
  let w := rootHandler shareStore shareFs (get "/f1/meta") (arrive shareHeap) in
  sentStatus (res w) = 200 /\ sentHeaders (res w) = jsonType
  /\ body (res w) = [stringify (VObj (deleteProp (entryObj fileA) "path"))]
  /\ ended (res w) = true
  /\ hasProp (deleteProp (entryObj fileA) "path") "path" = false
  /\ (forall k, k <> "path" ->
        getProp (deleteProp (entryObj fileA) "path") k = getProp (entryObj fileA) k).
Proof.
  apply (meta_response shareStore shareFs (get "/f1/meta") shareHeap "f1" (entryObj fileA));
    vm_compute; reflexivity.
Defined.

Example meta_body :
  deleteProp (entryObj fileA) "path"
  = [("id", VStr "f1"); ("name", VStr "a.txt"); ("type", VStr "file");
     ("parentId", VStr "d1"); ("downloadCount", VNum 4)].
Proof. reflexivity. Qed.

(** C4: for an identifier that resolves to a directory entry with path
    [d], whose directory holds the files [names], the answer to
    [GET /{id}] has status 200, content type [application/json] and as
    its body the JSON text of [{id, children}]: [id] is the identifier
    asked for and [children] lists, in the order of [names], exactly the
    children of [d] the store has, each as [{name, id}]. *)
Theorem directory_listing md fs req h i o d names :
  segments (url req) = [i] ->
  resolve md h i = Some o ->
  getProp o "type" = VStr "dir" ->
  getProp o "path" = VStr d ->
  readdir fs d = inr names ->
  let w := rootHandler md fs req (arrive h) in
  sentStatus (res w) = 200 /\ sentHeaders (res w) = jsonType
  /\ body (res w) =
       [stringify (VObj [("id", VStr i); ("children", VArr (sharedChildren md h d names))])]
  /\ ended (res w) = true.
Proof.
  intros Hsegs Hres Hty Hpath Hdir. cbv zeta.
  destruct (resolve_inv _ _ _ _ Hres) as (p & l & Hp & Hfalsy & Hl & Ho).
  unfold rootHandler.
  rewrite (root_valid md fs req h i [] p Hsegs); [|left; done|done|done].
  cbn [List.length Nat.eqb]. rewrite file_run. cbv zeta.
  unfold first. cbn [hd]. rewrite Hp. simpl. unfold getData. rewrite Hl. simpl. rewrite Ho. simpl.
  rewrite Hty, Hpath. simpl. rewrite Hdir. simpl.
  rewrite !res_recordAll. simpl. done.
Qed.

Lemma directory_listing_example :
  let w := rootHandler shareStore shareFs (get "/d1") (arrive shareHeap) in
  sentStatus (res w) = 200 /\ sentHeaders (res w) = jsonType
  /\ body (res w) =
       [stringify (VObj [("id", VStr "d1");
                         ("children",
                          VArr (sharedChildren shareStore shareHeap "/share" ["a.txt"; "b.txt"]))])]
  /\ ended (res w) = true.
Proof.
  apply (directory_listing shareStore shareFs (get "/d1") shareHeap "d1" (entryObj shareDir)
           "/share" ["a.txt"; "b.txt"]); vm_compute; reflexivity.
Defined.

(** [b.txt] is on the disk but not in the store: it is not listed. *)
Example listing_skips_unshared :
  sharedChildren shareStore shareHeap "/share" ["a.txt"; "b.txt"]
  = [VObj [("name", VStr "a.txt"); ("id", VStr "f1")]].
Proof. vm_compute. reflexivity. Qed.

(** C2, amended: a request that fetches the content of a file with path
    [p] calls [incrementDownload] exactly once, with [p], as its last
    call and right after it has created the read stream and piped it into
    the response, whatever the file system holds (the file is opened only
    later); every other request, a directory listing or a metadata
    request among them, never calls it. *)
Theorem counted_once_per_file_request md fs req h :
  let w := rootHandler md fs req (arrive h) in
  (forall p, fetchedFile md h req = Some p ->
     increments (calls w) = [p]
     /\ sentStatus (res w) = 200 /\ sentHeaders (res w) = octetType /\ piped (res w) = Some p
     /\ exists cs, calls w = cs ++ [CCreateReadStream p; CIncrementDownload p])
  /\ (fetchedFile md h req = None -> increments (calls w) = [])
  /\ (forall i, segments (url req) = [i; "meta"] -> increments (calls w) = [])
  /\ (forall i o, segments (url req) = [i] -> resolve md h i = Some o ->
        getProp o "type" = VStr "dir" -> increments (calls w) = []).
Proof.
  cbv zeta. destruct (root_effects md fs req h) as [Hinc _].
  split; [|split; [|split]].
  - intros p H. split; [by rewrite Hinc, H|].
    destruct (file_fetch_run md fs req h p H) as (i & q & ->). simpl.
    repeat split. by exists [CGetPathFromId i; CGetPathFromId i; CGetData (Some q)].
  - intros Hnone. by rewrite Hinc, Hnone.
  - intros i Hsegs. rewrite Hinc. unfold fetchedFile. by rewrite Hsegs.
  - intros i o Hsegs Hres Hty. rewrite Hinc. unfold fetchedFile. by rewrite Hsegs, Hres, Hty.
Qed.

Lemma counted_once_example :
  increments (calls (rootHandler shareStore shareFs (get "/f1") (arrive shareHeap)))
    = ["/share/a.txt"]
  /\ increments (calls (rootHandler shareStore shareFs (get "/f1/meta") (arrive shareHeap))) = []
  /\ increments (calls (rootHandler shareStore shareFs (get "/d1") (arrive shareHeap))) = [].
Proof.
  split; [|split].
  - apply (counted_once_per_file_request shareStore shareFs (get "/f1") shareHeap).
    vm_compute. reflexivity.
  - apply (counted_once_per_file_request shareStore shareFs (get "/f1/meta") shareHeap) with "f1".
    vm_compute. reflexivity.
  - apply (counted_once_per_file_request shareStore shareFs (get "/d1") shareHeap)
      with "d1" (entryObj shareDir); vm_compute; reflexivity.
Defined.

(** C2, as stated, fails: the file of [f1] is gone from the disk, so its
    read cannot be started, and its fetch is counted all the same. *)
Lemma counted_though_unreadable :
  fetchedFile shareStore shareHeap (get "/f1") = Some "/share/a.txt"
  /\ canOpen goneFs "/share/a.txt" = false
  /\ increments (calls (rootHandler shareStore goneFs (get "/f1") (arrive shareHeap)))
     = ["/share/a.txt"].
Proof. vm_compute. done. Qed.

(** The counter of the fetched file after the fetch. *)
Example fetch_bumps_counter :
  heap (rootHandler shareStore shareFs (get "/f1") (arrive shareHeap)) !! 1%nat
  = Some (entryObj {| id := "f1"; path := "/share/a.txt"; name := "a.txt"; type := KFile;
                      parentId := Some "d1"; downloadCount := 5 |}).
Proof. vm_compute. reflexivity. Qed.

(** What the [catch] of [rootHandler] does for an error thrown while the
    handler runs: over a well-formed store, when the handling of a request
    throws an error whose code is not 404, the response is the bare status
    500: no head written, no header, no status message, an empty body,
    ended; and the log gains the error line and its stack line. Nothing of
    the error is in the response. *)
Theorem internal_error_is_500 md fs req h err :
  wf md h ->
  fst (handle md fs req (arrive h)) = inl err ->
  code err <> Some 404 ->
  let w := rootHandler md fs req (arrive h) in
  res w = {| statusCode := 500; statusMessage := ""; head := None; body := [];
             piped := None; ended := true |}
  /\ sentStatus (res w) = 500
  /\ log w = log (snd (handle md fs req (arrive h)))
             ++ [(LError, "HTTPService: " +:+ toString err);
                 (LDebug, "HTTPService: " +:+ stack err)].
Proof.
  intros Hwf Hthrow Hcode. cbv zeta. unfold rootHandler.
  destruct (handle md fs req (arrive h)) as [r w'] eqn:Hrun.
  simpl in Hthrow. subst r.
  pose proof (throws_before_head _ _ _ _ _ _ Hwf Hrun) as Hres.
  unfold recover. rewrite bool_decide_eq_false_2 by done.
  simpl. rewrite Hres. split; [done|split; [done|]]. by rewrite <- app_assoc.
Qed.

Lemma internal_error_example :
  let w := rootHandler shareStore goneFs (get "/d1") (arrive shareHeap) in
  res w = {| statusCode := 500; statusMessage := ""; head := None; body := [];
             piped := None; ended := true |}
  /\ sentStatus (res w) = 500
  /\ log w = log (snd (handle shareStore goneFs (get "/d1") (arrive shareHeap)))
             ++ [(LError, "HTTPService: " +:+ toString (enoent "/share"));
                 (LDebug, "HTTPService: " +:+ stack (enoent "/share"))].
Proof.
  apply (internal_error_is_500 shareStore goneFs (get "/d1") shareHeap (enoent "/share")).
  - exact share_wf.
  - vm_compute. reflexivity.
  - vm_compute. discriminate.
Defined.

(** Well-formedness is needed: the file handler writes its head before it
    creates the read stream, which refuses a path that is not a string,
    and a head once written keeps its status. *)
Example head_before_bad_path :
  let w := rootHandler shareStore shareFs (get "/f1") (arrive brokenHeap) in
  statusCode (res w) = 500 /\ sentStatus (res w) = 200.
Proof. by vm_compute. Qed.

(** C7 fails on the code: an internal error that comes after the handler
    has returned is neither answered with 500 nor logged. For a content
    request whose file cannot be opened the handler returns normally, with
    the head 200 stored and the stream piped; the stream then fails to
    open the file, nothing catches its error, nothing is logged beyond
    the request line, and the client is sent nothing at all: the response
    is never ended. *)
Theorem unreadable_file_is_no_500 md fs req h p :
  fetchedFile md h req = Some p ->
  canOpen fs p = false ->
  let w := rootHandler md fs req (arrive h) in
  fst (handle md fs req (arrive h)) = inr tt
  /\ streamFails fs (res w) = true
  /\ onWire fs (res w) = Silence
  /\ res w = {| statusCode := 200; statusMessage := ""; head := Some (200, octetType);
                body := []; piped := Some p; ended := false |}
  /\ log w = [(LInfo, requestLine req)].
Proof.
  intros Hf Hopen. cbv zeta.
  destruct (file_fetch_run md fs req h p Hf) as (i & q & Hrun).
  assert (Hok : fst (handle md fs req (arrive h)) = inr tt).
  { revert Hrun. unfold rootHandler.
    destruct (handle md fs req (arrive h)) as [[e|[]] w'] eqn:Hh; [|done].
    intros Hrec. exfalso.
    apply (f_equal (fun w => ended (res w))) in Hrec. revert Hrec.
    unfold recover. destruct (bool_decide _); simpl; by rewrite ?res_recordAll. }
  rewrite Hrun. unfold onWire, streamFails. simpl.
  rewrite ?res_recordAll, ?log_recordAll. simpl. rewrite Hopen. done.
Qed.

Lemma unreadable_file_example :
  let w := rootHandler shareStore goneFs (get "/f1") (arrive shareHeap) in
  fst (handle shareStore goneFs (get "/f1") (arrive shareHeap)) = inr tt
  /\ streamFails goneFs (res w) = true
  /\ onWire goneFs (res w) = Silence
  /\ res w = {| statusCode := 200; statusMessage := ""; head := Some (200, octetType);
                body := []; piped := Some "/share/a.txt"; ended := false |}
  /\ log w = [(LInfo, requestLine (get "/f1"))].
Proof.
  apply (unreadable_file_is_no_500 shareStore goneFs (get "/f1") shareHeap "/share/a.txt").
  - vm_compute. reflexivity.
  - reflexivity.
Defined.

(** C9: a request leaves every object that existed before it as it was,
    except the entry object of a file whose content it fetched, which is
    replaced by its [bump]: [incrementDownload] is called at most once,
    and [bump] changes no property but [downloadCount]. *)
Theorem store_frame md fs req h :
  let w := rootHandler md fs req (arrive h) in
  (List.length (increments (calls w)) <= 1)%nat
  /\ (forall l o, h !! l = Some o ->
        heap w !! l = Some o
        \/ exists p, fetchedFile md h req = Some p /\ increments (calls w) = [p]
                     /\ files md !! p = Some l /\ heap w !! l = Some (bump o))
  /\ (forall o k, k <> "downloadCount" -> getProp (bump o) k = getProp o k).
Proof.
  cbv zeta. destruct (root_effects md fs req h) as [Hinc Hheap].
  split; [|split].
  - rewrite Hinc. destruct (fetchedFile md h req); simpl; lia.
  - intros l o Ho. rewrite (Hheap l o Ho), Hinc.
    destruct (fetchedFile md h req) as [p|]; [|by left].
    unfold incrementDownload. destruct (files md !! p) as [l0|] eqn:Hl0; [|by left].
    destruct (decide (l0 = l)) as [->|Hne].
    + right. exists p. rewrite lookup_alter_eq, Ho. done.
    + left. by rewrite lookup_alter_ne.
  - intros o k. apply getProp_bump_ne.
Qed.

(* ===================================================================== *)
(** * The life cycle of the service                                       *)
(* ===================================================================== *)

(** C10: the constructor either is given a falsy [metaData] or a falsy
    [port], and then throws an [Error] after logging its message, with no
    service built; or is given both, and then returns a service whose
    server is idle, with nothing logged. *)
Theorem constructor_guard (metaData : arg MetaData) (port : jsval) (lg : logbook) :
  (argTruthy metaData && truthy port = false
   /\ exists e, constructor metaData port lg = (inl e, lg ++ [(LError, message e)])
                /\ ename e = "Error" /\ code e = None)
  \/ (argTruthy metaData && truthy port = true
      /\ constructor metaData port lg
         = (inr {| metaData := metaData; port := port; server := Idle |}, lg)).
Proof.
  unfold constructor.
  destruct (argTruthy metaData); simpl.
  - destruct (truthy port); simpl; [by right|].
    left. split; [done|].
    by exists (newError "Port not passed to HTTPService." " at new HTTPService").
  - left. split; [done|].
    by exists (newError "MetaData object not passed to HTTPService." " at new HTTPService").
Qed.

Example constructor_no_port :
  fst (constructor (Given shareStore) (VNum 0) [])
  = inl (newError "Port not passed to HTTPService." " at new HTTPService").
Proof. reflexivity. Qed.

(** C5, amended: what [start()] does on a server that is not listening.
    A port that [listen] does not take is refused on the spot: the error
    is thrown by this [start()] call, the service is left as it was and
    no event follows. A port that [listen] takes but that cannot be bound
    (it is in use) fails later: [start()] returns normally and leaves the
    service as it was, the failure comes as the server's [error] event,
    and all its listener does is log two lines (under the label of the
    UDP service). Otherwise [start()] returns and the server listens. *)
Theorem bind_failure_is_only_logged net this lg :
  (forall c, server this <> Listening c) ->
  let lg1 := lg ++ [(LDebug, "HTTPService: Start function called")] in
  match listenArg net (port this), bindPort net (port this) with
  | Some e, _ => start net this lg = (Threw e, this, lg1, None)
  | None, inl err =>
      start net this lg = (Returned VUndef, this, lg1, Some (EError err))
      /\ forall lg', onEvent (EError err) lg'
           = (lg' ++ [(LError, "UDPService: " +:+ toString err);
                      (LDebug, "UDPService: " +:+ stack err)], None)
  | None, inr (a, p) =>
      exists c, start net this lg
                = (Returned VUndef, setServer (Listening c) this, lg1, Some (EListening a p))
  end.
Proof.
  intros Hidle. cbv zeta. unfold start.
  destruct (server this) as [|c|c|] eqn:Hs; try (by destruct (Hidle c));
    destruct (listenArg net (port this)) as [e|]; try done;
    destruct (bindPort net (port this)) as [err|[a p]]; try done; by eexists.
Qed.

Lemma bind_failure_example :
  (start busyNet busyService []
     = (Returned VUndef, busyService, [(LDebug, "HTTPService: Start function called")],
        Some (EError eaddrinuse))
   /\ forall lg', onEvent (EError eaddrinuse) lg'
        = (lg' ++ [(LError, "UDPService: " +:+ toString eaddrinuse);
                   (LDebug, "UDPService: " +:+ stack eaddrinuse)], None))
  /\ start busyNet strayService []
     = (Threw (badPort 65536), strayService, [(LDebug, "HTTPService: Start function called")],
        None).
Proof.
  split.
  - apply (bind_failure_is_only_logged busyNet busyService []).
    intros c. vm_compute. discriminate.
  - apply (bind_failure_is_only_logged busyNet strayService []).
    intros c. vm_compute. discriminate.
Defined.

(** C5, as stated, fails: port 8001 is taken, [start()] returns
    [undefined] and throws nothing, and the listener of the event hands
    nothing on. *)
Lemma bind_failure_not_thrown :
  bindPort busyNet (port busyService) = inl eaddrinuse
  /\ fst (fst (fst (start busyNet busyService []))) = Returned VUndef
  /\ snd (start busyNet busyService []) = Some (EError eaddrinuse)
  /\ snd (onEvent (EError eaddrinuse) []) = None.
Proof. vm_compute. done. Qed.

(** C8: [stop()] returns [undefined] and leaves the server closing, not
    closed; given to [Promise.all], what it returned counts as fulfilled
    at once, so the [will-quit] handler closes the database at the very
    time it asked the server to stop. *)
Theorem stop_returns_before_close this lg now :
  fst (fst (stop this lg)) = Returned VUndef
  /\ server (snd (fst (stop this lg))) = close (server this)
  /\ (exists c, close (server this) = Closing c)
  /\ (exists v, fst (fst (stop this lg)) = Returned v
       /\ Main.PromiseAll now [Main.Plain v]
          = {| Main.settlesAt := now; Main.outcome := Main.Fulfilled (VArr [v]) |})
  /\ Main.trace (Main.willQuit sampleEnv now
                   {| Main.server := Some plainServer; Main.config := VNull;
                      Main.trace := [] |})
     = [(now, Main.ALog LInfo "Main: App quit initiated. Cleaning up");
        (now, Main.AStop 3);
        (now, Main.ACloseDb);
        ((now + 1)%nat, Main.ALog LInfo "Main: Cleaned all resources. Shutting down.");
        ((now + 1)%nat, Main.AExit)].
Proof.
  split; [done|]. split; [done|]. split; [|split].
  - destruct (server this) as [|c|c|]; simpl; by eexists.
  - exists VUndef. split; [done|]. unfold Main.PromiseAll. simpl. by rewrite Nat.max_id.
  - unfold Main.willQuit, Main.PromiseAll. simpl.
    rewrite !Nat.max_id. by rewrite Nat.max_r by lia.
Qed.

(** A closing server with an open connection closes two events later. *)
Example closes_later :
  server (snd (fst (stop servingService []))) = Closing 1
  /\ drain (Closing 1) = (Closing 0, None)
  /\ drain (Closing 0) = (Closed, Some EClose).
Proof. by vm_compute. Qed.

(* ===================================================================== *)
(** * Restarting the server                                               *)
(* ===================================================================== *)

(** C6, amended: [createServer] asks the running server to stop, waits
    for [Promise.all] over what [stop()] returned, and at the time that
    settles builds the new server and then starts it. That time is not
    before the call; it is after every stop signal when none rejects, and
    it is the time of the earliest rejection, which is logged, when one
    does. *)
Theorem restart_waits_for_promise_all env now a old new :
  Main.server a = Some old ->
  Main.construct env (Main.config a) = inr new ->
  let all := Main.PromiseAll now (Main.stopAt old now) in
  let t := Main.settlesAt all in
  let a' := Main.createServer env now a in
  Main.server a' = Some new
  /\ Main.trace a' =
       Main.trace a ++ [(now, Main.AStop (Main.sid old))]
       ++ match Main.outcome all with
          | Main.Rejected e =>
              [(t, Main.ALog LError ("Main: Error creating server. " +:+ toString e))]
          | Main.Fulfilled _ => []
          end
       ++ [(t, Main.ANew (Main.sid new)); (t, Main.AStart (Main.sid new))]
       ++ match Main.startThrows new with
          | Some e => Main.sendServerError env t e
          | None => []
          end
  /\ (now <= t)%nat
  /\ (Forall (fun x => Main.rejection x = None) (Main.stopAt old now) ->
      Forall (fun x => (Main.settleTime now x <= t)%nat) (Main.stopAt old now))
  /\ (forall e, Main.outcome all = Main.Rejected e ->
      (exists x, x ∈ Main.stopAt old now /\ Main.rejection x = Some e
                 /\ Main.settleTime now x = t)
      /\ forall y, y ∈ Main.stopAt old now -> is_Some (Main.rejection y) ->
           (t <= Main.settleTime now y)%nat).
Proof.
  intros Hold Hnew. cbv zeta. unfold Main.createServer. rewrite Hold, Hnew. cbn [Main.server Main.trace].
  split; [done|]. split.
  { by destruct (Main.outcome _). }
  split; [apply PromiseAll_ge|]. split.
  - intros Hnone. by apply PromiseAll_fulfilled.
  - intros e. apply PromiseAll_rejected.
Qed.

Lemma restart_example :
  let all := Main.PromiseAll 0 (Main.stopAt oldServer 0) in
  let t := Main.settlesAt all in
  let a' := Main.createServer sampleEnv 0 running in
  Main.server a' = Some newServer
  /\ Main.trace a' =
       Main.trace running ++ [(0%nat, Main.AStop (Main.sid oldServer))]
       ++ match Main.outcome all with
          | Main.Rejected e =>
              [(t, Main.ALog LError ("Main: Error creating server. " +:+ toString e))]
          | Main.Fulfilled _ => []
          end
       ++ [(t, Main.ANew (Main.sid newServer)); (t, Main.AStart (Main.sid newServer))]
       ++ match Main.startThrows newServer with
          | Some e => Main.sendServerError sampleEnv t e
          | None => []
          end
  /\ (0 <= t)%nat
  /\ (Forall (fun x => Main.rejection x = None) (Main.stopAt oldServer 0) ->
      Forall (fun x => (Main.settleTime 0 x <= t)%nat) (Main.stopAt oldServer 0))
  /\ (forall e, Main.outcome all = Main.Rejected e ->
      (exists x, x ∈ Main.stopAt oldServer 0 /\ Main.rejection x = Some e
                 /\ Main.settleTime 0 x = t)
      /\ forall y, y ∈ Main.stopAt oldServer 0 -> is_Some (Main.rejection y) ->
           (t <= Main.settleTime 0 y)%nat).
Proof.
  apply (restart_waits_for_promise_all sampleEnv 0%nat running oldServer newServer);
    vm_compute; reflexivity.
Defined.

(** C6, as stated, fails: the first stop signal rejects at time 1, the
    second is fulfilled at time 5, and the new server is built at
    time 1. *)
Lemma restart_before_all_stopped :
  Main.builtAt (Main.trace (Main.createServer sampleEnv 0 running)) = Some 1%nat
  /\ slow 0 ∈ Main.stopAt oldServer 0
  /\ Main.settleTime 0 (slow 0) = 5%nat.
Proof.
  split; [by vm_compute|]. split; [|by vm_compute].
  simpl. apply elem_of_cons. right. apply elem_of_cons. by left.
Qed.

(* ===================================================================== *)
(** * More of the request handlers                                        *)
(* ===================================================================== *)

(** ** Strings *)

Lemma append_cons a s t : String a s +:+ t = String a (s +:+ t).
Proof. reflexivity. Qed.

Lemma append_assoc r s t : (r +:+ s) +:+ t = r +:+ (s +:+ t).
Proof. induction r as [|a r IH]; [done|]. by rewrite !append_cons, IH. Qed.

Lemma endsWith_snoc r c : endsWith (r +:+ String c EmptyString) c = true.
Proof.
  induction r as [|a r IH]; simpl; [apply Ascii.eqb_refl|].
  destruct (r +:+ String c EmptyString) eqn:E; [by destruct r|]. exact IH.
Qed.

Lemma dropLast_snoc r c : dropLast (r +:+ String c EmptyString) = r.
Proof.
  induction r as [|a r IH]; simpl; [done|].
  destruct (r +:+ String c EmptyString) eqn:E; [by destruct r|]. by rewrite IH.
Qed.


Lemma join_cons2 sep p q rest :
  join sep (p :: q :: rest) = p +:+ sep +:+ join sep (q :: rest).
Proof. reflexivity. Qed.

Lemma join_split s : join "/" (split "/" s) = s.
Proof.
  induction s as [|a r IH]; [done|]. cbn [split].
  destruct (split_cons "/" r) as (p & rest & E). rewrite E in *.
  destruct (Ascii.eqb_spec a "/") as [->|Hne].
  - rewrite join_cons2, IH. done.
  - destruct rest as [|q rest].
    + cbn [join] in *. by rewrite <- IH.
    + rewrite join_cons2 in *. by rewrite <- IH.
Qed.

Lemma split_slashFree s : Forall (fun p => slashFree p = true) (split "/" s).
Proof.
  induction s as [|a r IH]; simpl; [by constructor|].
  destruct (Ascii.eqb a "/") eqn:Ha; [by constructor|].
  destruct (split_cons "/" r) as (p & rest & E). rewrite E in *.
  inversion IH; subst. constructor; [|done].
  unfold slashFree in *. simpl. by rewrite Ha.
Qed.

Lemma split_slashFree_app p s :
  slashFree p = true -> split "/" (p +:+ String "/" s) = p :: split "/" s.
Proof.
  induction p as [|a p IH]; intros Hp; [done|].
  unfold slashFree in Hp. simpl in Hp. apply andb_prop in Hp as [Ha Hp].
  change (String a p +:+ String "/" s) with (String a (p +:+ String "/" s)).
  cbn [split]. apply negb_true_iff in Ha. rewrite Ha. by rewrite (IH Hp).
Qed.

Lemma split_slashFree_one p : slashFree p = true -> split "/" p = [p].
Proof.
  induction p as [|a p IH]; intros Hp; [done|].
  unfold slashFree in Hp. simpl in Hp. apply andb_prop in Hp as [Ha Hp].
  cbn [split]. apply negb_true_iff in Ha. rewrite Ha. by rewrite (IH Hp).
Qed.

Lemma plain_slashFree s : plain s = true -> slashFree s = true.
Proof. unfold plain. intros H. by repeat (apply andb_prop in H as [H _]). Qed.

(** [split] undoes [join] on pieces without the separator. *)
Lemma split_join p segs :
  Forall (fun s => slashFree s = true) (p :: segs) ->
  split "/" (join "/" (p :: segs)) = p :: segs.
Proof.
  revert p. induction segs as [|q segs IH]; intros p Hall.
  - apply split_slashFree_one. by inversion Hall.
  - inversion Hall as [|? ? Hp Hrest]; subst.
    change (join "/" (p :: q :: segs)) with (p +:+ String "/" (join "/" (q :: segs))).
    rewrite split_slashFree_app by done. by rewrite IH.
Qed.

Lemma normalize_plain segs acc :
  Forall (fun s => plain s = true) segs ->
  fold_left (Path.normalizeStep false) segs acc = rev segs ++ acc.
Proof.
  revert acc. induction segs as [|s segs IH]; intros acc Hall; [done|].
  inversion Hall as [|? ? Hs Hrest]; subst. cbn [fold_left rev].
  assert (Path.normalizeStep false acc s = s :: acc) as ->.
  { unfold plain in Hs. repeat (apply andb_prop in Hs as [Hs ?]).
    unfold Path.normalizeStep.
    repeat match goal with H : negb _ = true |- _ => apply negb_true_iff in H; rewrite H end.
    done. }
  rewrite IH by done. by rewrite <- app_assoc.
Qed.

Lemma endsWith_app x n c :
  n <> "" -> endsWith (x +:+ n) c = endsWith n c.
Proof.
  intros Hn. induction x as [|a x IH]; [done|].
  change (String a x +:+ n) with (String a (x +:+ n)). cbn [endsWith].
  destruct (x +:+ n) eqn:E; [|done].
  destruct x as [|b x]; [change (n = "") in E; congruence|].
  change (String b (x +:+ n) = "") in E. discriminate.
Qed.

Lemma endsWith_slashFree n : slashFree n = true -> endsWith n "/" = false.
Proof.
  induction n as [|a n IH]; [done|]. intros Hn.
  unfold slashFree in Hn. simpl in Hn. apply andb_prop in Hn as [Ha Hn].
  cbn [endsWith]. destruct n; [by apply negb_true_iff|]. by apply IH.
Qed.

Lemma join_snoc segs n q :
  join "/" ((q :: segs) ++ [n]) = join "/" (q :: segs) +:+ String "/" n.
Proof.
  revert q. induction segs as [|p segs IH]; intros q; [done|].
  change (join "/" ((q :: p :: segs) ++ [n]))
    with (q +:+ String "/" (join "/" ((p :: segs) ++ [n]))).
  rewrite IH.
  change (join "/" (q :: p :: segs)) with (q +:+ String "/" (join "/" (p :: segs))).
  by rewrite append_assoc.
Qed.

Lemma plain_nonempty n : plain n = true -> n <> "".
Proof.
  unfold plain. intros H ->. by vm_compute in H.
Qed.

(** ** What [recover] leaves *)

(** What [recover] makes of the response. *)
Lemma recover_res err w :
  res (recover err w)
  = {| statusCode := if bool_decide (code err = Some 404) then 404 else 500;
       statusMessage := if bool_decide (code err = Some 404) then toString err
                        else statusMessage (res w);
       head := head (res w); body := body (res w); piped := piped (res w);
       ended := true |}.
Proof. unfold recover. by destruct (bool_decide _). Qed.

Lemma recover_heap err w : heap (recover err w) = heap w.
Proof. unfold recover. by destruct (bool_decide _). Qed.

Lemma recover_calls err w : calls (recover err w) = calls w.
Proof. unfold recover. by destruct (bool_decide _). Qed.

(** The answer depends on the URL through [req.path] only. *)
Lemma same_segments md fs r1 r2 h :
  segments (url r1) = segments (url r2) ->
  let w1 := rootHandler md fs r1 (arrive h) in
  let w2 := rootHandler md fs r2 (arrive h) in
  res w1 = res w2 /\ heap w1 = heap w2 /\ calls w1 = calls w2.
Proof.
  intros Hsegs. cbv zeta. unfold rootHandler.
  rewrite !handle_run, !validate_run. cbv zeta. rewrite Hsegs.
  destruct (_ || _).
  { by rewrite !recover_res, !recover_heap, !recover_calls. }
  destruct (falsyPath _).
  { by rewrite !recover_res, !recover_heap, !recover_calls. }
  destruct (_ =? 2)%nat.
  { rewrite !meta_run. done. }
  rewrite !file_run. cbv zeta. cbn [heap record logAt arrive].
  destruct (_ ≫= getData md) as [l|];
    [|by rewrite !recover_res, !recover_heap, !recover_calls].
  destruct (isStr _ "dir").
  - destruct (getProp _ "path") as [| | | |d| |];
      try (by rewrite !recover_res, !recover_heap, !recover_calls).
    destruct (readdir fs d) as [e|names];
      [by rewrite !recover_res, !recover_heap, !recover_calls|].
    cbn [res heap calls endRes withChunk withHead setRes].
    by rewrite !res_recordAll, !heap_recordAll, !calls_recordAll.
  - destruct (getProp _ "path") as [| | | |f| |];
      try (by rewrite !recover_res, !recover_heap, !recover_calls).
    done.
Qed.

Lemma segments_slash u :
  endsWith (slice1 u) "/" = false -> segments (u +:+ "/") = segments u.
Proof.
  intros Hend. unfold segments. rewrite Hend.
  destruct u as [|c r]; [done|]. simpl slice1 in *.
  by rewrite endsWith_snoc, dropLast_snoc.
Qed.


(** ** Counting *)

Lemma bump_entryObj e : bump (entryObj e) = entryObj (counted 1 e).
Proof. destruct e as [i p n t [q|] c]; reflexivity. Qed.

Lemma counted_counted n m e : counted n (counted m e) = counted (m + n) e.
Proof. unfold counted. simpl. f_equal. lia. Qed.

Lemma counted_0 e : counted 0 e = e.
Proof. destruct e. unfold counted. simpl. f_equal. lia. Qed.

Lemma entryObj_path e e' : entryObj e = entryObj e' -> path e = path e'.
Proof. unfold entryObj. by intros [= _ ? _]. Qed.

(** The entry of a path after one request. *)
Lemma serve_lookup md fs req h p l e :
  wf md h -> files md !! p = Some l -> h !! l = Some (entryObj e) ->
  serve md fs req h !! l
  = Some (entryObj (if bool_decide (fetchedFile md h req = Some p) then counted 1 e else e)).
Proof.
  intros Hwf Hl He. unfold serve.
  destruct (root_effects md fs req h) as [_ Hheap]. rewrite (Hheap l _ He).
  destruct (fetchedFile md h req) as [p0|]; [|by rewrite bool_decide_eq_false_2].
  unfold incrementDownload.
  destruct (decide (p0 = p)) as [->|Hne].
  - rewrite bool_decide_eq_true_2 by done.
    rewrite Hl, lookup_alter_eq, He. by rewrite <- bump_entryObj.
  - rewrite bool_decide_eq_false_2 by congruence.
    destruct (files md !! p0) as [l0|] eqn:Hl0; [|done].
    rewrite lookup_alter_ne; [done|]. intros ->.
    destruct (Hwf p0 l Hl0) as (e0 & He0 & Hp0).
    destruct (Hwf p l Hl) as (e1 & He1 & Hp1).
    rewrite He0 in He1. assert (entryObj e0 = entryObj e1) as He01 by congruence.
    apply entryObj_path in He01. congruence.
Qed.

(** A request leaves the store well formed. *)
Lemma serve_wf md fs req h : wf md h -> wf md (serve md fs req h).
Proof.
  intros Hwf p l Hl. destruct (Hwf p l Hl) as (e & He & Hp).
  rewrite (serve_lookup md fs req h p l e Hwf Hl He).
  destruct (bool_decide _); eexists; (split; [reflexivity|done]).
Qed.

(** Counting a download changes nothing a later request is routed by. *)
Lemma fetchedFile_serve md fs req h r :
  wf md h -> fetchedFile md (serve md fs req h) r = fetchedFile md h r.
Proof.
  intros Hwf. unfold fetchedFile.
  destruct (segments (url r)) as [|i [|]]; try done.
  unfold resolve, entryAt. destruct (getPathFromId md i) as [q|]; [|done].
  destruct (String.eqb q ""); [done|].
  destruct (files md !! q) as [l|] eqn:Hl; [|done]. simpl.
  destruct (Hwf q l Hl) as (e & He & Hp).
  rewrite (serve_lookup md fs req h q l e Hwf Hl He), He.
  by destruct (bool_decide _).
Qed.

Lemma fetches_serve md fs req h p reqs :
  wf md h -> fetches md (serve md fs req h) p reqs = fetches md h p reqs.
Proof.
  intros Hwf. unfold fetches. f_equal. apply filter_ext. intros r.
  by rewrite fetchedFile_serve.
Qed.

(** ** The request path *)

(** X1: whatever the URL of the request, no piece of [req.path] holds a
    slash, and the pieces joined by slashes give back the URL without its
    first character and without one slash at its end: [validateRequest]
    loses nothing else of the URL. *)
Theorem path_pieces u :
  Forall (fun p => slashFree p = true) (segments u)
  /\ join "/" (segments u)
     = if endsWith (slice1 u) "/" then dropLast (slice1 u) else slice1 u.
Proof.
  unfold segments. split; [apply split_slashFree|apply join_split].
Qed.

Lemma recover_wire fs err w :
  head (res w) = None ->
  onWire fs (res (recover err w))
  = Whole (if bool_decide (code err = Some 404) then 404 else 500) [] (body (res w))
  /\ streamFails fs (res (recover err w)) = streamFails fs (res w).
Proof.
  intros Hhead. unfold onWire, streamFails, sentStatus, sentHeaders.
  rewrite recover_res. cbn [ended head statusCode body piped]. rewrite Hhead.
  by destruct (bool_decide _).
Qed.

(** X2: what the client receives. A content request is answered by the
    file, streamed with status 200, when the file can be opened; when it
    cannot, nothing at all is sent and the stream fails with an error
    that nothing catches. Every other request gets a whole, ended
    response: 200 with the JSON header and one chunk when the handler
    returned; an empty 404 when it threw an error of code 404; and for
    any other error an empty 500, or an empty 200 with the header of a
    file when the head had been written before the error. *)
Theorem what_the_client_receives md fs req h :
  let w := rootHandler md fs req (arrive h) in
  match fetchedFile md h req with
  | Some p =>
      onWire fs (res w) = (if canOpen fs p then File 200 octetType p else Silence)
      /\ streamFails fs (res w) = negb (canOpen fs p)
  | None =>
      streamFails fs (res w) = false
      /\ exists c hs chunks, onWire fs (res w) = Whole c hs chunks
         /\ match fst (handle md fs req (arrive h)) with
            | inr _ => c = 200 /\ hs = jsonType /\ exists s, chunks = [s]
            | inl e =>
                chunks = []
                /\ if bool_decide (code e = Some 404) then c = 404 /\ hs = []
                   else (c = 500 /\ hs = []) \/ (c = 200 /\ hs = octetType)
            end
  end.
Proof.
  cbv zeta.
  destruct (fetchedFile md h req) as [p|] eqn:Hf.
  { destruct (file_fetch_run md fs req h p Hf) as (i & q & ->).
    unfold onWire, streamFails. simpl. rewrite ?res_recordAll. simpl. done. }
  pose proof (root_effects md fs req h) as [Hinc _]. cbv zeta in Hinc. rewrite Hf in Hinc.
  revert Hinc. unfold rootHandler.
  destruct (handle_cases md fs req h)
    as [(Hshape & e & He & ->)|[(Hshape & Hfalsy & e & He & ->)
       |(i & rest & p & Hsegs & Hshape & Hp & Hfalsy & ->)]].
  - intros _. destruct (recover_wire fs e (logAt LInfo (requestLine req) (arrive h)) eq_refl)
      as [-> ->]. split; [done|]. do 3 eexists. split; [reflexivity|].
    simpl. rewrite bool_decide_eq_true_2 by done. done.
  - intros _.
    destruct (recover_wire fs e
                (record (CGetPathFromId (first (segments (url req))))
                   (logAt LInfo (requestLine req) (arrive h))) eq_refl) as [-> ->].
    split; [done|]. do 3 eexists. split; [reflexivity|].
    simpl. rewrite bool_decide_eq_true_2 by done. done.
  - destruct (_ =? 2)%nat.
    + rewrite meta_run. intros _. unfold onWire, streamFails. simpl.
      split; [done|]. do 3 eexists. split; [reflexivity|]. split; [done|]. split; [done|].
      by eexists.
    + rewrite file_run. cbv zeta.
      destruct (_ ≫= getData md) as [l|].
      2:{ intros _. unfold onWire, streamFails. rewrite recover_res. simpl.
          split; [done|]. do 3 eexists. split; [reflexivity|]. split; [done|]. by left. }
      destruct (isStr _ "dir").
      * destruct (getProp _ "path") as [| | | |d| |];
          try (intros _; unfold onWire, streamFails; rewrite recover_res; simpl;
               split; [done|]; do 3 eexists; (split; [reflexivity|]); split; [done|]; by left).
        destruct (readdir fs d) as [e|names].
        -- intros _. unfold onWire, streamFails. rewrite recover_res. simpl.
           split; [done|]. do 3 eexists. split; [reflexivity|]. split; [done|].
           destruct (bool_decide _); [done|by left].
        -- intros _. unfold onWire, streamFails. simpl. rewrite ?res_recordAll. simpl.
           split; [done|]. do 3 eexists. split; [reflexivity|]. split; [done|].
           split; [done|]. by eexists.
      * destruct (getProp _ "path") as [| | | |f| |];
          try (intros _; unfold onWire, streamFails; rewrite recover_res; simpl;
               split; [done|]; do 3 eexists; (split; [reflexivity|]); split; [done|]; by right).
        simpl. rewrite ?calls_recordAll. simpl. done.
Qed.

(** X3: when no error of [readdir] carries the code 404, the status of
    the answer is 404 exactly when the URL has the wrong shape or its
    identifier resolves to no truthy path: no request that passes
    [validateRequest] is answered with 404. *)
Theorem not_found_iff md fs req h :
  (forall p e, readdir fs p = inl e -> code e <> Some 404) ->
  let w := rootHandler md fs req (arrive h) in
  sentStatus (res w) = 404
  <-> (~ validShape (segments (url req))
       \/ falsyPath (getPathFromId md (first (segments (url req)))) = true).
Proof.
  intros Hfs. cbv zeta. unfold rootHandler.
  destruct (handle_cases md fs req h)
    as [(Hshape & e & He & ->)|[(Hshape & Hfalsy & e & He & ->)
       |(i & rest & p & Hsegs & Hshape & Hp & Hfalsy & ->)]].
  - unfold sentStatus. rewrite recover_res, He. simpl. split; auto.
  - unfold sentStatus. rewrite recover_res, He. simpl. split; auto.
  - assert (Hok : ~ (~ validShape (segments (url req))
                     \/ falsyPath (getPathFromId md (first (segments (url req)))) = true)).
    { rewrite Hsegs in *. unfold first. cbn [hd]. rewrite Hp, Hfalsy.
      intros [?|?]; [tauto|done]. }
    split; [|tauto]. intros H404. exfalso. revert H404.
    destruct (_ =? 2)%nat.
    + rewrite meta_run. simpl. done.
    + rewrite file_run. cbv zeta. unfold sentStatus.
      destruct (_ ≫= getData md) as [l|]; [|rewrite recover_res; simpl; done].
      destruct (isStr _ "dir").
      * destruct (getProp _ "path") as [| | | |d| |];
          try (rewrite recover_res; simpl; done).
        destruct (readdir fs d) as [e|names] eqn:Hd.
        -- rewrite recover_res. simpl.
           rewrite bool_decide_eq_false_2 by eauto. done.
        -- simpl. done.
      * destruct (getProp _ "path") as [| | | |f| |];
          try (rewrite recover_res; simpl; done).
        simpl. done.
Qed.

Lemma not_found_iff_example :
  sentStatus (res (rootHandler shareStore shareFs (get "/d1/x") (arrive shareHeap))) = 404
  <-> (~ validShape (segments (url (get "/d1/x")))
       \/ falsyPath (getPathFromId shareStore (first (segments (url (get "/d1/x"))))) = true).
Proof.
  apply (not_found_iff shareStore shareFs (get "/d1/x") shareHeap).
  intros p e. unfold shareFs. simpl. destruct (String.eqb p "/share"); [done|].
  intros [= <-]. vm_compute. discriminate.
Defined.

(** X4: one slash added to a URL that does not end in one changes
    nothing: the response, the store and the calls made on the store are
    the same. *)
Theorem trailing_slash_ignored md fs req h :
  endsWith (slice1 (url req)) "/" = false ->
  let w := rootHandler md fs req (arrive h) in
  let w' := rootHandler md fs (withUrl (url req +:+ "/") req) (arrive h) in
  res w' = res w /\ heap w' = heap w /\ calls w' = calls w.
Proof.
  intros Hend. apply same_segments. simpl. by apply segments_slash.
Qed.

Lemma trailing_slash_example :
  let w := rootHandler shareStore shareFs (get "/d1") (arrive shareHeap) in
  let w' := rootHandler shareStore shareFs (withUrl (url (get "/d1") +:+ "/") (get "/d1"))
              (arrive shareHeap) in
  res w' = res w /\ heap w' = heap w /\ calls w' = calls w.
Proof.
  apply (trailing_slash_ignored shareStore shareFs (get "/d1") shareHeap).
  vm_compute. reflexivity.
Defined.



(** X6: an identifier that resolves to a path the store holds no entry
    for. The request for its metadata is answered with 200 and the body
    [{}]; the request for its content is answered with a bare 500, no head
    and no body written. *)
Theorem missing_entry md fs rm rf h i p :
  segments (url rm) = [i; "meta"] ->
  segments (url rf) = [i] ->
  getPathFromId md i = Some p -> p <> "" ->
  files md !! p = None ->
  let wm := rootHandler md fs rm (arrive h) in
  let wc := rootHandler md fs rf (arrive h) in
  (sentStatus (res wm) = 200 /\ sentHeaders (res wm) = jsonType /\ body (res wm) = ["{}"]
   /\ ended (res wm) = true)
  /\ (sentStatus (res wc) = 500 /\ sentHeaders (res wc) = [] /\ body (res wc) = []
      /\ ended (res wc) = true).
Proof.
  intros Hm Hf Hp Hne Hnone. cbv zeta.
  assert (Hfalsy : falsyPath (Some p) = false).
  { simpl. by destruct (String.eqb_spec p ""). }
  unfold rootHandler. split.
  - rewrite (root_valid md fs rm h i ["meta"] p Hm); [|by right|done|done].
    cbn [List.length Nat.eqb]. rewrite meta_run. cbv zeta.
    unfold first. cbn [hd]. rewrite Hp. simpl. unfold getData. rewrite Hnone. done.
  - rewrite (root_valid md fs rf h i [] p Hf); [|by left|done|done].
    cbn [List.length Nat.eqb]. rewrite file_run. cbv zeta.
    unfold first. cbn [hd]. rewrite Hp. simpl. unfold getData. rewrite Hnone. done.
Qed.

Lemma missing_entry_example :
  let wm := rootHandler staleStore shareFs (get "/old/meta") (arrive shareHeap) in
  let wc := rootHandler staleStore shareFs (get "/old") (arrive shareHeap) in
  (sentStatus (res wm) = 200 /\ sentHeaders (res wm) = jsonType /\ body (res wm) = ["{}"]
   /\ ended (res wm) = true)
  /\ (sentStatus (res wc) = 500 /\ sentHeaders (res wc) = [] /\ body (res wc) = []
      /\ ended (res wc) = true).
Proof.
  apply (missing_entry staleStore shareFs (get "/old/meta") (get "/old") shareHeap
           "old" "/share/old.txt"); try (vm_compute; reflexivity).
  discriminate.
Defined.

(** X7: a request for metadata (a path of two pieces) never reaches the
    file system: with any two file systems the handler ends in the same
    world. *)
Theorem metadata_ignores_files md fs fs' req h :
  List.length (segments (url req)) = 2%nat ->
  rootHandler md fs req (arrive h) = rootHandler md fs' req (arrive h).
Proof.
  intros Hlen. unfold rootHandler. rewrite !handle_run.
  destruct (validateRequest _ _ _) as [[e|segs] w'] eqn:Hv; [done|].
  assert (segs = segments (url req)) as ->.
  { rewrite validate_run in Hv. cbv zeta in Hv.
    destruct (_ || _); [done|]. destruct (falsyPath _); [done|]. by injection Hv as <- _. }
  by rewrite Hlen.
Qed.

Lemma metadata_ignores_files_example :
  rootHandler shareStore shareFs (get "/f1/meta") (arrive shareHeap)
  = rootHandler shareStore goneFs (get "/f1/meta") (arrive shareHeap).
Proof.
  apply (metadata_ignores_files shareStore shareFs goneFs (get "/f1/meta") shareHeap).
  reflexivity.
Defined.

(** X8: a request keeps the store well formed: if every path of the
    store leads to an entry object with that path before the request, it
    does after it. *)
Theorem wf_kept md fs req h :
  wf md h -> wf md (heap (rootHandler md fs req (arrive h))).
Proof.
  intros Hwf p l Hl. destruct (Hwf p l Hl) as (e & He & Hp).
  pose proof (serve_lookup md fs req h p l e Hwf Hl He) as Hs. unfold serve in Hs.
  rewrite Hs. destruct (bool_decide _); eexists; (split; [reflexivity|done]).
Qed.

Lemma wf_kept_example :
  wf shareStore shareHeap
  /\ wf shareStore (heap (rootHandler shareStore shareFs (get "/f1") (arrive shareHeap))).
Proof.
  split; [exact share_wf|].
  apply (wf_kept shareStore shareFs (get "/f1") shareHeap). exact share_wf.
Defined.

(** X9: downloads are counted exactly. After any sequence of requests
    served one after the other on a well-formed store, the download count
    of the entry at [p] has grown by the number of requests that fetch
    the content of [p], and nothing else of the entry has changed. *)
Theorem downloads_counted md fs reqs h p l e :
  wf md h -> files md !! p = Some l -> h !! l = Some (entryObj e) ->
  serveAll md fs reqs h !! l
  = Some (entryObj (counted (Z.of_nat (fetches md h p reqs)) e)).
Proof.
  revert h e. induction reqs as [|r reqs IH]; intros h e Hwf Hl He.
  { simpl. by rewrite counted_0. }
  cbn [serveAll fold_left]. fold (serveAll md fs reqs (serve md fs r h)).
  pose proof (serve_lookup md fs r h p l e Hwf Hl He) as Hs.
  assert (Hwf' : wf md (serve md fs r h)) by (by apply serve_wf).
  rewrite (IH _ _ Hwf' Hl Hs), fetches_serve by done.
  unfold fetches at 2. cbn [List.filter].
  destruct (bool_decide _); cbn [List.length].
  - rewrite counted_counted. unfold fetches, counted. do 3 f_equal. lia.
  - done.
Qed.

Lemma downloads_counted_example :
  serveAll shareStore shareFs [get "/f1"; get "/d1"; get "/f1/meta"; get "/f1/"] shareHeap
    !! 1%nat
  = Some (entryObj (counted
            (Z.of_nat (fetches shareStore shareHeap "/share/a.txt"
                         [get "/f1"; get "/d1"; get "/f1/meta"; get "/f1/"])) fileA)).
Proof.
  apply (downloads_counted shareStore shareFs
           [get "/f1"; get "/d1"; get "/f1/meta"; get "/f1/"] shareHeap "/share/a.txt" 1%nat fileA).
  - exact share_wf.
  - vm_compute. reflexivity.
  - vm_compute. reflexivity.
Defined.

(** Of four requests, the two for the content are counted; the listing
    and the metadata are not. *)
Example two_of_four_counted :
  fetches shareStore shareHeap "/share/a.txt"
    [get "/f1"; get "/d1"; get "/f1/meta"; get "/f1/"] = 2%nat.
Proof. vm_compute. reflexivity. Qed.

(** X10: the path of a child in a listing. For a directory whose path is
    absolute and in normal form and a plain file name, [Path.join(path,
    child)] is the path of the directory, a slash and the name: the path
    that [hasFile] and [getData] are asked for. *)
Theorem join_normal segs n :
  Forall (fun s => plain s = true) segs -> plain n = true ->
  Path.join (absolute segs) n = absolute (segs ++ [n]).
Proof.
  intros Hsegs Hn. pose proof (plain_nonempty n Hn) as Hne.
  assert (Hall : Forall (fun s => plain s = true) (segs ++ [n])).
  { apply Forall_app. split; [done|]. by constructor. }
  assert (Hfree : Forall (fun s => slashFree s = true) (segs ++ [n])).
  { eapply Forall_impl; [exact Hall|]. apply plain_slashFree. }
  unfold Path.join, absolute.
  change ("/" +:+ join "/" segs) with (String "/" (join "/" segs)).
  change ("/" +:+ join "/" (segs ++ [n])) with (String "/" (join "/" (segs ++ [n]))).
  cbn [List.filter String.eqb negb].
  destruct (String.eqb_spec n "") as [|_]; [done|]. cbn [negb].
  change (join "/" [String "/" (join "/" segs); n])
    with (String "/" (join "/" segs +:+ String "/" n)).
  assert (Hjoined : String "/" (join "/" segs +:+ String "/" n)
                    = String "/" (match segs with
                                  | [] => String "/" n
                                  | _ => join "/" (segs ++ [n])
                                  end)).
  { destruct segs as [|q segs]; [done|]. by rewrite join_snoc. }
  rewrite Hjoined. unfold Path.normalize. cbn [String.eqb Path.isAbsolute].
  change (Ascii.eqb "/" "/") with true. cbn [negb].
  assert (Hsplit : split "/" (String "/" (match segs with
                                          | [] => String "/" n
                                          | _ => join "/" (segs ++ [n])
                                          end))
                   = "" :: match segs with [] => [""; n] | _ => segs ++ [n] end).
  { cbn [split]. rewrite Ascii.eqb_refl. f_equal.
    destruct segs as [|q segs].
    - cbn [split]. rewrite Ascii.eqb_refl. f_equal.
      apply split_slashFree_one. by apply plain_slashFree.
    - apply (split_join q (segs ++ [n])). exact Hfree. }
  unfold Path.normalizeString. rewrite Hsplit.
  assert (Hfold : fold_left (Path.normalizeStep false)
                    ("" :: match segs with [] => [""; n] | _ => segs ++ [n] end) []
                  = rev (segs ++ [n])).
  { destruct segs as [|q segs].
    - change (fold_left (Path.normalizeStep false) [""; ""; n] [])
        with (fold_left (Path.normalizeStep false) [n] []).
      rewrite (normalize_plain [n]) by (by constructor). done.
    - change (fold_left (Path.normalizeStep false) ("" :: (q :: segs) ++ [n]) [])
        with (fold_left (Path.normalizeStep false) ((q :: segs) ++ [n]) []).
      rewrite normalize_plain by done. by rewrite app_nil_r. }
  rewrite Hfold, rev_involutive.
  assert (Hnonempty : String.eqb (join "/" (segs ++ [n])) "" = false).
  { destruct segs as [|q segs].
    - change (join "/" ([] ++ [n])) with n. by destruct (String.eqb_spec n "").
    - rewrite join_snoc. destruct (String.eqb_spec (join "/" (q :: segs) +:+ String "/" n) "") as [E|]; [|done].
      by destruct (join "/" (q :: segs)). }
  rewrite Hnonempty. cbn [andb negb].
  assert (Hend : endsWith (String "/" (match segs with
                                       | [] => String "/" n
                                       | _ => join "/" (segs ++ [n])
                                       end)) "/" = false).
  { destruct segs as [|q segs].
    - change (String "/" (String "/" n)) with ("//" +:+ n).
      rewrite endsWith_app by done. by apply endsWith_slashFree, plain_slashFree.
    - rewrite join_snoc.
      change (String "/" (join "/" (q :: segs) +:+ String "/" n))
        with (String "/" (join "/" (q :: segs)) +:+ String "/" n).
      replace (String "/" (join "/" (q :: segs)) +:+ String "/" n)
        with ((String "/" (join "/" (q :: segs)) +:+ "/") +:+ n).
      2:{ by rewrite append_assoc. }
      rewrite endsWith_app by done. by apply endsWith_slashFree, plain_slashFree. }
  rewrite Hend, andb_false_r. done.
Qed.

Lemma join_normal_example :
  Path.join (absolute ["home"; "ann"; "share"]) "a.txt"
  = absolute (["home"; "ann"; "share"] ++ ["a.txt"]).
Proof.
  apply (join_normal ["home"; "ann"; "share"] "a.txt"); [|reflexivity].
  repeat constructor.
Defined.

(** ** The log of a request *)

Lemma recover_log err w :
  log (recover err w)
  = log w ++ (if bool_decide (code err = Some 404) then []
              else [(LError, "HTTPService: " +:+ toString err);
                    (LDebug, "HTTPService: " +:+ stack err)]).
Proof.
  unfold recover. destruct (bool_decide _); simpl; [by rewrite app_nil_r|].
  by rewrite <- app_assoc.
Qed.

(** X20: what a request leaves in the log. The request line comes
    first, at level info. A request that is answered, or refused with an
    error of code 404, logs nothing more; any other error thrown while the
    request is handled adds its message at level error and its stack at
    level debug, and nothing else is ever logged. *)
Theorem request_log md fs req h :
  let w := rootHandler md fs req (arrive h) in
  log w
  = (LInfo, requestLine req)
    :: match fst (handle md fs req (arrive h)) with
       | inl err =>
           if bool_decide (code err = Some 404) then []
           else [(LError, "HTTPService: " +:+ toString err);
                 (LDebug, "HTTPService: " +:+ stack err)]
       | inr _ => []
       end.
Proof.
  cbv zeta. unfold rootHandler.
  destruct (handle_cases md fs req h)
    as [(Hshape & e & He & ->)|[(Hshape & Hfalsy & e & He & ->)
       |(i & rest & p & Hsegs & Hshape & Hp & Hfalsy & ->)]].
  - by rewrite recover_log.
  - by rewrite recover_log.
  - destruct (_ =? 2)%nat.
    + rewrite meta_run. simpl. done.
    + rewrite file_run. cbv zeta.
      destruct (_ ≫= getData md) as [l|]; [|by rewrite recover_log].
      destruct (isStr _ "dir").
      * destruct (getProp _ "path") as [| | | |d| |];
          try (by rewrite recover_log).
        destruct (readdir fs d) as [e|names].
        -- by rewrite recover_log.
        -- simpl. by rewrite log_recordAll.
      * destruct (getProp _ "path") as [| | | |f| |];
          try (by rewrite recover_log).
        simpl. done.
Qed.

(* ===================================================================== *)
(** * More of the owning process                                          *)
(* ===================================================================== *)

(** ** Objects, assigned to *)

Lemma getProp_setProp_eq o k v : getProp (Ipc.setProp o k v) k = v.
Proof.
  induction o as [|[k' v'] o IH]; simpl; [by rewrite String.eqb_refl|].
  destruct (String.eqb k' k) eqn:E; simpl; [by rewrite String.eqb_refl|by rewrite E].
Qed.

Lemma getProp_setProp_ne o k v k' :
  k' <> k -> getProp (Ipc.setProp o k v) k' = getProp o k'.
Proof.
  intros Hne. induction o as [|[k0 v0] o IH]; simpl.
  - destruct (String.eqb_spec k k'); [congruence|done].
  - destruct (String.eqb_spec k0 k) as [->|Hk]; simpl.
    + destruct (String.eqb_spec k k'); [congruence|done].
    + by rewrite IH.
Qed.

Lemma hasProp_setProp o k v k' :
  hasProp (Ipc.setProp o k v) k' = hasProp o k' || String.eqb k k'.
Proof.
  unfold hasProp. induction o as [|[k0 v0] o IH]; simpl; [by rewrite orb_false_r|].
  destruct (String.eqb_spec k0 k) as [->|Hk]; simpl.
  - destruct (String.eqb k k'); simpl; [done|by rewrite orb_false_r].
  - rewrite IH. by rewrite orb_assoc.
Qed.

Lemma getProp_app o o' k :
  getProp (o ++ o') k = if hasProp o k then getProp o k else getProp o' k.
Proof.
  unfold hasProp. induction o as [|[k0 v0] o IH]; simpl; [done|].
  by destruct (String.eqb k0 k).
Qed.

Lemma hasProp_app o o' k : hasProp (o ++ o') k = hasProp o k || hasProp o' k.
Proof. unfold hasProp. apply existsb_app. Qed.

Lemma hasProp_rev o k : hasProp (rev o) k = hasProp o k.
Proof.
  induction o as [|[k0 v0] o IH]; [done|]. cbn [rev]. rewrite hasProp_app, IH.
  unfold hasProp at 2 3. simpl. rewrite orb_false_r. apply orb_comm.
Qed.

(** X11: what [Object.assign(config._, update)] leaves in the
    configuration. A property of the update has the value the update gives
    it (the last one, should the list name it twice), every other
    property keeps its value, and the configuration has the properties of
    both and no other. *)
Theorem assign_lookup (o u : obj) (k : string) :
  getProp (Ipc.assign o u) k = (if hasProp u k then getProp (rev u) k else getProp o k)
  /\ hasProp (Ipc.assign o u) k = hasProp o k || hasProp u k.
Proof.
  revert o. induction u as [|[k0 v0] u IH]; intros o.
  { simpl. by rewrite orb_false_r. }
  cbn [Ipc.assign fold_left fst snd]. fold (Ipc.assign (Ipc.setProp o k0 v0) u).
  destruct (IH (Ipc.setProp o k0 v0)) as [IHg IHh]. rewrite IHg, IHh. clear IH IHg IHh.
  cbn [rev]. rewrite getProp_app, hasProp_rev, hasProp_setProp.
  change (hasProp ((k0, v0) :: u) k) with (String.eqb k0 k || hasProp u k).
  split.
  - destruct (hasProp u k); [by rewrite orb_true_r|]. rewrite orb_false_r. simpl.
    destruct (String.eqb_spec k0 k) as [->|Hne].
    + apply getProp_setProp_eq.
    + by apply getProp_setProp_ne.
  - by rewrite <- orb_assoc.
Qed.

(** A property that is there keeps its place, a new one comes last. *)
Example assign_runs :
  Ipc.assign sampleConfig [("httpPort", VNum 9000); ("db", VStr "/data/db")]
  = [("httpPort", VNum 9000); ("selfRespond", VBool false); ("db", VStr "/data/db")].
Proof. reflexivity. Qed.

(** ** CONFIG_UPDATE *)

(** [createServer] only adds to the trace, and nothing before its call. *)
Lemma createServer_trace env now a :
  exists tail, Main.trace (Main.createServer env now a) = Main.trace a ++ tail
               /\ Forall (fun ta => (now <= fst ta)%nat) tail.
Proof.
  unfold Main.createServer.
  pose proof (PromiseAll_ge now (match Main.server a with
                                 | Some s => Main.stopAt s now | None => [] end)) as Hge.
  set (all := Main.PromiseAll now _) in *.
  destruct (Main.construct env (Main.config a)) as [e|s]; cbn [Main.trace];
    eexists; (split; [reflexivity|]); unfold Main.sendServerError;
    destruct (Main.server a); destruct (Main.outcome all);
    try destruct (Main.startThrows s); try destruct (Main.windowAt env _);
    repeat (constructor; simpl; try lia).
Qed.

(** X12: CONFIG_UPDATE on a configuration object. The listener does not
    throw and the configuration holds the update whether or not it can be
    written. When [config.write()] rejects, nothing else happens: the
    server keeps running with the old settings. When it is fulfilled, the
    server is restarted by [createServer] on the updated configuration,
    and nothing of the restart is done before the file is written. *)
Theorem config_update env write now update o a :
  Main.config a = VObj o ->
  let c := VObj (Ipc.assign o update) in
  let written := write now c in
  let a1 := {| Main.server := Main.server a; Main.config := c; Main.trace := Main.trace a |} in
  exists a', Ipc.onConfigUpdate env write now update a = Some (inr a')
    /\ Main.config a' = c
    /\ (forall e, Main.outcome written = Main.Rejected e -> a' = a1)
    /\ (forall v, Main.outcome written = Main.Fulfilled v ->
          a' = Main.createServer env (Nat.max now (Main.settlesAt written)) a1
          /\ exists tail, Main.trace a' = Main.trace a ++ tail
               /\ Forall (fun ta => (Main.settlesAt written <= fst ta)%nat) tail).
Proof.
  intros Hcfg. cbv zeta. unfold Ipc.onConfigUpdate. rewrite Hcfg.
  destruct (Main.outcome (write now _)) as [v|e] eqn:Hw.
  - eexists. split; [reflexivity|]. split; [|split; [done|]].
    + unfold Main.createServer. cbn [Main.config].
      by destruct (Main.construct _ _).
    + intros v' _. split; [done|].
      destruct (createServer_trace env
                  (Nat.max now (Main.settlesAt (write now (VObj (Ipc.assign o update)))))
                  {| Main.server := Main.server a; Main.config := VObj (Ipc.assign o update);
                     Main.trace := Main.trace a |}) as (tail & Htr & Hall).
      exists tail. split; [done|]. eapply Forall_impl; [exact Hall|]. simpl. intros; lia.
  - eexists. split; [reflexivity|]. split; [done|]. split; [done|]. done.
Qed.

Lemma config_update_example :
  let c := VObj (Ipc.assign sampleConfig [("httpPort", VNum 9000)]) in
  let written := writeSoon 3 c in
  let a0 := {| Main.server := Some oldServer; Main.config := VObj sampleConfig;
               Main.trace := [] |} in
  let a1 := {| Main.server := Main.server a0; Main.config := c; Main.trace := Main.trace a0 |} in
  exists a', Ipc.onConfigUpdate sampleEnv writeSoon 3 [("httpPort", VNum 9000)] a0
             = Some (inr a')
    /\ Main.config a' = c
    /\ (forall e, Main.outcome written = Main.Rejected e -> a' = a1)
    /\ (forall v, Main.outcome written = Main.Fulfilled v ->
          a' = Main.createServer sampleEnv (Nat.max 3 (Main.settlesAt written)) a1
          /\ exists tail, Main.trace a' = Main.trace a0 ++ tail
               /\ Forall (fun ta => (Main.settlesAt written <= fst ta)%nat) tail).
Proof.
  exact (config_update sampleEnv writeSoon 3%nat [("httpPort", VNum 9000)] sampleConfig
           {| Main.server := Some oldServer; Main.config := VObj sampleConfig;
              Main.trace := [] |}
           eq_refl).
Defined.

(** ** SAVE_STATE and GET_STATE *)

(** X13: SAVE_STATE reports success whatever became of the write. With a
    window, the chain is fulfilled and SAVED_STATE is sent once, when
    [put] settles; if [put] was rejected (the database is closed, or the
    value is refused) the store is unchanged and the error is logged, and
    SAVED_STATE is sent all the same. *)
Theorem save_state_always_reports enc now delay st w :
  Ipc.window w = true ->
  let c := Ipc.saveState enc now delay st w in
  Ipc.state c = Main.Fulfilled VUndef
  /\ Ipc.when c = (now + delay)%nat
  /\ Ipc.sent (Ipc.after c) = Ipc.sent w ++ [((now + delay)%nat, Ipc.SavedState)]
  /\ match putResult enc st w with
     | inr v =>
         Ipc.store (Ipc.after c) = <["redux" := v]> (Ipc.store w)
         /\ Ipc.logged (Ipc.after c) = Ipc.logged w
     | inl e =>
         Ipc.store (Ipc.after c) = Ipc.store w
         /\ Ipc.logged (Ipc.after c)
            = Ipc.logged w ++ [((now + delay)%nat, (LError, "Main: " +:+ toString e))]
     end.
Proof.
  intros Hwin. cbv zeta. unfold Ipc.saveState, Ipc.dbPut, putResult.
  destruct (Ipc.dbOpen w) eqn:Hdb; [destruct (enc st) as [e|v]|];
    unfold Ipc.catchDo, Ipc.thenDo, Ipc.send, Ipc.logErr;
    simpl; rewrite Hwin; simpl; done.
Qed.

Lemma save_state_example :
  let c := Ipc.saveState inr 4 1 reduxState freshIpc in
  Ipc.state c = Main.Fulfilled VUndef
  /\ Ipc.when c = (4 + 1)%nat
  /\ Ipc.sent (Ipc.after c) = Ipc.sent freshIpc ++ [((4 + 1)%nat, Ipc.SavedState)]
  /\ match putResult inr reduxState freshIpc with
     | inr v =>
         Ipc.store (Ipc.after c) = <["redux" := v]> (Ipc.store freshIpc)
         /\ Ipc.logged (Ipc.after c) = Ipc.logged freshIpc
     | inl e =>
         Ipc.store (Ipc.after c) = Ipc.store freshIpc
         /\ Ipc.logged (Ipc.after c)
            = Ipc.logged freshIpc ++ [((4 + 1)%nat, (LError, "Main: " +:+ toString e))]
     end.
Proof.
  apply (save_state_always_reports inr 4%nat 1%nat reduxState freshIpc). reflexivity.
Defined.

(** X14: SAVE_STATE once the window is closed. The state is written all
    the same (when [put] accepts it), nothing is sent, and the chain ends
    rejected with the error of reading [webContents] of [null], which no
    handler catches. *)
Theorem save_state_without_window enc now delay st w :
  Ipc.window w = false ->
  let c := Ipc.saveState enc now delay st w in
  Ipc.state c = Main.Rejected Ipc.noWindow
  /\ Ipc.sent (Ipc.after c) = Ipc.sent w
  /\ Ipc.store (Ipc.after c)
     = match putResult enc st w with
       | inr v => <["redux" := v]> (Ipc.store w)
       | inl _ => Ipc.store w
       end.
Proof.
  intros Hwin. cbv zeta. unfold Ipc.saveState, Ipc.dbPut, putResult.
  destruct (Ipc.dbOpen w) eqn:Hdb; [destruct (enc st) as [e|v]|];
    unfold Ipc.catchDo, Ipc.thenDo, Ipc.send, Ipc.logErr;
    simpl; rewrite Hwin; done.
Qed.

Lemma save_state_without_window_example :
  let c := Ipc.saveState inr 4 1 reduxState windowless in
  Ipc.state c = Main.Rejected Ipc.noWindow
  /\ Ipc.sent (Ipc.after c) = Ipc.sent windowless
  /\ Ipc.store (Ipc.after c)
     = match putResult inr reduxState windowless with
       | inr v => <["redux" := v]> (Ipc.store windowless)
       | inl _ => Ipc.store windowless
       end.
Proof.
  apply (save_state_without_window inr 4%nat 1%nat reduxState windowless). reflexivity.
Defined.

(** X15: GET_STATE never ends rejected and never changes the database.
    Either the database is open, holds a state, the window is there and
    the state is sent to it, nothing being logged; or nothing is sent and
    one error is logged at level info (the key is missing, the database is
    closed, or the window is gone). *)
Theorem get_state_never_rejects now delay w :
  let c := Ipc.getState now delay w in
  Ipc.state c = Main.Fulfilled VUndef
  /\ Ipc.store (Ipc.after c) = Ipc.store w
  /\ ((exists v, Ipc.dbOpen w = true /\ Ipc.store w !! "redux" = Some v /\ Ipc.window w = true
                 /\ Ipc.sent (Ipc.after c) = Ipc.sent w ++ [((now + delay)%nat, Ipc.GotState v)]
                 /\ Ipc.logged (Ipc.after c) = Ipc.logged w)
      \/ (Ipc.sent (Ipc.after c) = Ipc.sent w
          /\ ~ (Ipc.dbOpen w = true /\ is_Some (Ipc.store w !! "redux") /\ Ipc.window w = true)
          /\ exists e, Ipc.logged (Ipc.after c)
                       = Ipc.logged w ++ [((now + delay)%nat, (LInfo, "Main: " +:+ toString e))])).
Proof.
  cbv zeta. unfold Ipc.getState, Ipc.dbGet, Ipc.catchDo, Ipc.thenDo, Ipc.send, Ipc.logErr.
  cbn [Ipc.state Ipc.when Ipc.after].
  destruct (Ipc.dbOpen w) eqn:Hdb;
    [|simpl; split; [done|]; split; [done|]; right; split; [done|];
      split; [by intros (? & _)|by eexists]].
  destruct (Ipc.store w !! "redux") as [v|] eqn:Hv;
    [|simpl; split; [done|]; split; [done|]; right; split; [done|];
      split; [by intros (_ & [? ?] & _)|by eexists]].
  destruct (Ipc.window w) eqn:Hwin; simpl.
  - split; [done|]. split; [done|]. left. by exists v.
  - split; [done|]. split; [done|]. right. split; [done|].
    split; [by intros (_ & _ & ?)|by eexists].
Qed.

Lemma saveState_open enc now delay st v w :
  Ipc.dbOpen w = true -> Ipc.window w = true -> enc st = inr v ->
  Ipc.saveState enc now delay st w
  = {| Ipc.when := now + delay; Ipc.state := Main.Fulfilled VUndef;
       Ipc.after := {| Ipc.store := <["redux" := v]> (Ipc.store w); Ipc.dbOpen := true;
                       Ipc.window := true;
                       Ipc.sent := Ipc.sent w ++ [((now + delay)%nat, Ipc.SavedState)];
                       Ipc.logged := Ipc.logged w |} |}.
Proof.
  intros Hdb Hwin Henc. unfold Ipc.saveState, Ipc.dbPut. rewrite Hdb, Henc.
  unfold Ipc.catchDo, Ipc.thenDo, Ipc.send. simpl. by rewrite Hwin, ?Hdb.
Qed.

(** X16: a state saved is the state got. With the database open and the
    window there, GET_STATE run on what SAVE_STATE has left sends the
    window the value the database made of the saved state, whatever was
    stored before, and logs nothing. *)
Theorem state_round_trip enc now delay now' delay' st v w :
  Ipc.dbOpen w = true -> Ipc.window w = true -> enc st = inr v ->
  let c := Ipc.getState now' delay' (Ipc.after (Ipc.saveState enc now delay st w)) in
  Ipc.sent (Ipc.after c)
  = Ipc.sent w ++ [((now + delay)%nat, Ipc.SavedState); ((now' + delay')%nat, Ipc.GotState v)]
  /\ Ipc.logged (Ipc.after c) = Ipc.logged w.
Proof.
  intros Hdb Hwin Henc. cbv zeta. rewrite (saveState_open enc now delay st v) by done.
  cbn [Ipc.after].
  unfold Ipc.getState, Ipc.dbGet. cbn [Ipc.dbOpen Ipc.store]. rewrite lookup_insert_eq.
  unfold Ipc.catchDo, Ipc.thenDo, Ipc.send. simpl. by rewrite <- app_assoc.
Qed.

Lemma state_round_trip_example :
  let c := Ipc.getState 9 1 (Ipc.after (Ipc.saveState inr 4 1 reduxState freshIpc)) in
  Ipc.sent (Ipc.after c)
  = Ipc.sent freshIpc ++ [((4 + 1)%nat, Ipc.SavedState); ((9 + 1)%nat, Ipc.GotState reduxState)]
  /\ Ipc.logged (Ipc.after c) = Ipc.logged freshIpc.
Proof.
  apply (state_round_trip inr 4%nat 1%nat 9%nat 1%nat reduxState reduxState freshIpc);
    reflexivity.
Defined.

(** ** will-quit and createServer *)

Lemma PromiseAll_outcome now items :
  (exists v, Main.outcome (Main.PromiseAll now items) = Main.Fulfilled v)
  <-> Forall (fun x => Main.rejection x = None) items.
Proof.
  rewrite <- (firstRejection_None now). unfold Main.PromiseAll.
  destruct (Main.firstRejection now items) as [[t e]|]; simpl.
  - split; [by intros [v ?]|done].
  - split; [done|]. by eexists.
Qed.

(** X17: will-quit. The handler only adds to the trace and leaves the
    server variable as it is. [app.exit()] is called once when a server is
    set, as the last thing done, and never when none is: the quit that
    [preventDefault] has stopped is then not resumed. The database is
    closed at most once, and exactly when a server is set and none of its
    stop promises rejects. *)
Theorem quit_exits_only_with_server env now a :
  let a' := Main.willQuit env now a in
  exists tail, Main.trace a' = Main.trace a ++ tail
    /\ Main.server a' = Main.server a
    /\ howMany isExit tail = match Main.server a with Some _ => 1%nat | None => 0%nat end
    /\ (howMany isCloseDb tail = 1%nat
        <-> exists s, Main.server a = Some s
                      /\ Forall (fun x => Main.rejection x = None) (Main.stopAt s now))
    /\ (howMany isCloseDb tail <= 1)%nat
    /\ (is_Some (Main.server a) -> snd <$> last tail = Some Main.AExit)
    /\ Forall (fun ta => (now <= fst ta)%nat) tail.
Proof.
  cbv zeta. unfold Main.willQuit. destruct (Main.server a) as [s|] eqn:Hs.
  2:{ eexists. split; [reflexivity|]. cbn. split; [done|]. split; [done|].
      split; [|split; [lia|split; [by intros [? ?]|by repeat constructor]]].
      split; [done|]. by intros (s & ? & _). }
  pose proof (PromiseAll_ge now (Main.stopAt s now)) as Hge.
  pose proof (PromiseAll_outcome now (Main.stopAt s now)) as Hout.
  destruct (Main.outcome (Main.PromiseAll now (Main.stopAt s now))) as [v|e] eqn:Hall.
  - destruct (Main.outcome (Main.closeDb env _)) eqn:Hclose;
      (eexists; split; [cbn [Main.trace]; reflexivity|]); cbn;
      (split; [done|]); (split; [done|]);
      (split; [split; [intros _; exists s; split; [done|]; apply Hout; by eexists|done]|]);
      (split; [lia|]); (split; [done|]); repeat (constructor; simpl; try lia).
  - eexists; split; [cbn [Main.trace]; reflexivity|]. cbn.
    split; [done|]. split; [done|].
    split; [split; [done|]|].
    { intros (s' & [= <-] & Hnone). apply Hout in Hnone as [v ?]. done. }
    split; [lia|]. split; [done|]. repeat (constructor; simpl; try lia).
Qed.

(** X18: when [new Server] throws in [createServer], the old server, which
    has been told to stop, stays in the server variable: no server is
    built and the configuration is kept. The error is sent to the window,
    as the last thing done, when the window is there at that time; with
    [mainWindow] null nothing is sent at all. The next [createServer],
    called once this one has run, begins by stopping the same old server
    again. *)
Theorem failed_construct_keeps_old env now now' a old e :
  Main.server a = Some old ->
  Main.construct env (Main.config a) = inl e ->
  let t := Main.settlesAt (Main.PromiseAll now (Main.stopAt old now)) in
  (t <= now')%nat ->
  let a1 := Main.createServer env now a in
  Main.server a1 = Some old /\ Main.config a1 = Main.config a
  /\ (exists tail,
        Main.trace a1
        = Main.trace a ++ tail
          ++ (if Main.windowAt env t then [(t, Main.ASendServerError e)] else [])
        /\ snd <$> hd_error tail = Some (Main.AStop (Main.sid old))
        /\ howMany isNew tail = 0%nat /\ howMany isSend tail = 0%nat)
  /\ exists tail', Main.trace (Main.createServer env now' a1) = Main.trace a1 ++ tail'
        /\ snd <$> hd_error tail' = Some (Main.AStop (Main.sid old)).
Proof.
  intros Hold Hnew. cbv zeta. intros _. unfold Main.createServer at 1 2 3.
  rewrite Hold, Hnew. cbn [Main.server Main.config Main.trace].
  split; [done|]. split; [done|]. split.
  - eexists. split; [reflexivity|]. by destruct (Main.outcome _).
  - unfold Main.createServer. cbn [Main.server Main.config Main.trace]. rewrite Hold, Hnew.
    cbn [Main.server Main.config Main.trace]. rewrite Hnew. cbn [Main.trace].
    eexists. split; [reflexivity|]. by destruct (Main.outcome _).
Qed.

Lemma failed_construct_example :
  let e := newError "Port not passed to HTTPService." "" in
  let t := Main.settlesAt (Main.PromiseAll 0 (Main.stopAt oldServer 0)) in
  let a1 := Main.createServer brokenEnv 0 running in
  Main.server a1 = Some oldServer /\ Main.config a1 = Main.config running
  /\ (exists tail,
        Main.trace a1
        = Main.trace running ++ tail
          ++ (if Main.windowAt brokenEnv t then [(t, Main.ASendServerError e)] else [])
        /\ snd <$> hd_error tail = Some (Main.AStop (Main.sid oldServer))
        /\ howMany isNew tail = 0%nat /\ howMany isSend tail = 0%nat)
  /\ exists tail', Main.trace (Main.createServer brokenEnv 7 a1) = Main.trace a1 ++ tail'
        /\ snd <$> hd_error tail' = Some (Main.AStop (Main.sid oldServer)).
Proof.
  apply (failed_construct_keeps_old brokenEnv 0%nat 7%nat running oldServer
           (newError "Port not passed to HTTPService." "")); [reflexivity|reflexivity|].
  vm_compute. lia.
Defined.

(** The first failure is sent to the window at time 1; the second comes
    at time 8, when the window is closed, and is sent to nobody. *)
Example error_sent_while_window_is_there :
  howMany isSend (Main.trace (Main.createServer brokenEnv 0 running)) = 1%nat
  /\ howMany isSend (Main.trace (Main.createServer brokenEnv 7 running)) = 0%nat.
Proof. by vm_compute. Qed.

(** ** init *)

(** X19: the configuration [init] settles on. A configuration read from
    the file that has a property is kept as it is and not written. An
    empty one is replaced and written: the path of the database is set,
    self respond is on in development and as the defaults have it
    otherwise, and every other setting is the default one. *)
Theorem init_config development defaults dbPath loaded :
  let c := fst (Ipc.initConfig development defaults dbPath loaded) in
  let written := snd (Ipc.initConfig development defaults dbPath loaded) in
  match loaded with
  | _ :: _ => c = loaded /\ written = false
  | [] =>
      written = true
      /\ getProp c "db" = VStr dbPath
      /\ getProp c "selfRespond"
         = (if development then VBool true else getProp defaults "selfRespond")
      /\ (forall k, k <> "db" -> k <> "selfRespond" -> getProp c k = getProp defaults k)
      /\ (forall k, hasProp c k
                    = hasProp defaults k || String.eqb "db" k
                      || (development && String.eqb "selfRespond" k))
  end.
Proof.
  cbv zeta. destruct loaded as [|kv loaded]; [|done].
  unfold Ipc.initConfig. cbn [List.length Nat.eqb fst snd].
  split; [done|]. destruct development; cbn [fst].
  - split; [|split; [|split]].
    + rewrite getProp_setProp_ne by done. apply getProp_setProp_eq.
    + apply getProp_setProp_eq.
    + intros k Hdb Hself. by rewrite !getProp_setProp_ne.
    + intros k. by rewrite !hasProp_setProp.
  - split; [|split; [|split]].
    + apply getProp_setProp_eq.
    + by rewrite getProp_setProp_ne.
    + intros k Hdb Hself. by rewrite getProp_setProp_ne.
    + intros k. by rewrite hasProp_setProp, orb_false_r.
Qed.
